(** * executeQuery: a shallow embedding of src/routines/executeQuery.js

    The routine is an asynchronous pipeline.  Every `await` point is
    sequential, so it is modelled as a state-and-exception monad [M]
    over the connection state it touches (the termination flag and the
    'notice' listeners) together with an append-only trace of the
    observable events: interceptor hook invocations, listener
    registration, the call of the execution routine and the log lines.

    Interceptor hooks and the injected execution routine are arbitrary
    functions of their arguments; a hook may throw, which is modelled by
    returning [Err].  The context's mutable [sandbox] is not modelled
    (hooks are functions of their explicit arguments). *)

From Stdlib Require Import String Ascii List Bool Arith Lia.
Import ListNotations.
Open Scope string_scope.
Open Scope list_scope.

(** ** JavaScript string helpers *)

(** Characters removed by `String.prototype.trim` that are representable
    as one 8-bit character: TAB, LF, VT, FF, CR, SPACE and NO-BREAK SPACE. *)
Definition is_js_whitespace (c : ascii) : bool :=
  match nat_of_ascii c with
  | 9 | 10 | 11 | 12 | 13 | 32 | 160 => true
  | _ => false
  end.

Fixpoint trimStart (s : string) : string :=
  match s with
  | EmptyString => EmptyString
  | String c r => if is_js_whitespace c then trimStart r else s
  end.

Definition string_rev (s : string) : string :=
  string_of_list_ascii (rev (list_ascii_of_string s)).

(** `s.trim()` *)
Definition trim (s : string) : string :=
  string_rev (trimStart (string_rev (trimStart s))).

(** `s.includes(sub)` *)
Fixpoint includes (s sub : string) : bool :=
  if String.prefix sub s then true
  else match s with
       | EmptyString => false
       | String _ r => includes r sub
       end.

(** ** Data model *)

(** PrimitiveValueExpressionType *)
Inductive PrimitiveValue :=
| VString (s : string)
| VNumber (n : nat)
| VBool (b : bool)
| VNull.

(** QueryType *)
Record Query := mkQuery { sql : string; values : list PrimitiveValue }.

Definition Row := list (string * PrimitiveValue).
Definition Field := string.
Definition Notice := string.

(** The result object: `rows` is absent for streaming execution. *)
Record QueryResult := mkQueryResult {
  rows : option (list Row);
  fields : option (list Field);
  notices : list Notice }.

(** The error thrown by the execution routine (a node-postgres error):
    `code` may be undefined. *)
Record DriverError := mkDriverError {
  code : option string;
  message : string;
  constraint : option string }.

(** Errors that leave the routine: the classes of ../errors, the
    original driver error rethrown unchanged, and whatever a hook throws. *)
Inductive SlonikError :=
| BackendTerminatedError (cause : DriverError)
| InvalidInputError (msg : string)
| StatementTimeoutError (cause : DriverError)
| StatementCancelledError (cause : DriverError)
| NotNullIntegrityConstraintViolationError (cause : DriverError) (constraint : option string)
| ForeignKeyIntegrityConstraintViolationError (cause : DriverError) (constraint : option string)
| UniqueIntegrityConstraintViolationError (cause : DriverError) (constraint : option string)
| CheckIntegrityConstraintViolationError (cause : DriverError) (constraint : option string)
| DriverFailure (error : DriverError)
| InterceptorFailure (payload : string).

(** QueryContextType (without the sandbox). *)
Record QueryContext := mkQueryContext {
  ctxConnectionId : string;
  ctxOriginalQuery : Query;
  ctxPoolId : string;
  ctxQueryId : string;
  ctxTransactionId : option string }.

(** The outcome of a hook or of the whole routine. *)
Inductive res (A : Type) :=
| Ok (a : A)
| Err (e : SlonikError).
Arguments Ok {A} a.
Arguments Err {A} e.

(** InterceptorType: every hook is optional.  [beforeTransformQuery]
    returns the working query as it stands after the hook's in-place
    mutations; the values returned by [queryExecutionError],
    [afterQueryExecution] and [beforeQueryResult] are ignored by the
    routine. *)
Record Interceptor := mkInterceptor {
  beforeTransformQuery : option (QueryContext -> Query -> res Query);
  transformQuery : option (QueryContext -> Query -> res Query);
  beforeQueryExecution : option (QueryContext -> Query -> res (option QueryResult));
  queryExecutionError : option (QueryContext -> Query -> SlonikError -> res (option QueryResult));
  afterQueryExecution : option (QueryContext -> Query -> QueryResult -> res (option QueryResult));
  transformRow : option (QueryContext -> Query -> Row -> option (list Field) -> res Row);
  beforeQueryResult : option (QueryContext -> Query -> QueryResult -> res (option QueryResult)) }.

Record ClientConfiguration := mkClientConfiguration {
  captureStackTrace : bool;
  interceptors : list Interceptor }.

(** What the execution routine does: the notices the server emits on the
    connection while it runs, then resolution or rejection. *)
Inductive ExecOutcome :=
| Resolved (result : QueryResult)
| Rejected (error : DriverError).

Definition ExecutionRoutine :=
  QueryContext -> string -> list PrimitiveValue -> Query -> list Notice * ExecOutcome.

(** Observable events, tagged with the position of the interceptor in
    `clientConfiguration.interceptors`. *)
Inductive Event :=
| EvBeforeTransformQuery (k : nat)
| EvTransformQuery (k : nat) (input : Query)
| EvBeforeQueryExecution (k : nat)
| EvLogShortCircuit
| EvNoticeOn (listener : nat)
| EvExecutionRoutine (sql : string) (values : list PrimitiveValue) (query : Query)
| EvLogExecutionError (error : DriverError)
| EvNoticeOff (listener : nat)
| EvQueryExecutionError (k : nat) (error : SlonikError)
| EvAfterQueryExecution (k : nat)
| EvTransformRow (k : nat)
| EvBeforeQueryResult (k : nat).

(** Connection metadata read by the routine (`connection.connection.slonik`
    and `connection.native`). *)
Record Connection := mkConnection {
  connectionId : string;
  poolId : string;
  transactionId : option string;
  native : bool }.

(** The state the routine reads and writes: the connection's shared
    termination flag, the connection's 'notice' listeners (each listener
    function is identified by a number), the supplies of fresh listener
    functions and query ids, and the trace. *)
Record St := mkSt {
  conn : Connection;
  terminated : option DriverError;
  noticeListeners : list nat;
  nextListener : nat;
  nextQueryId : nat;
  trace : list Event }.

(** ** The state-and-exception monad *)

Definition M (A : Type) := St -> res A * St.

Definition ret {A} (a : A) : M A := fun s => (Ok a, s).

Definition bind {A B} (m : M A) (f : A -> M B) : M B :=
  fun s => match m s with
           | (Ok a, s') => f a s'
           | (Err e, s') => (Err e, s')
           end.

Notation "x <- m ;; k" := (bind m (fun x => k))
  (at level 61, m at next level, right associativity).
Notation "m ;; k" := (bind m (fun _ => k)) (at level 61, right associativity).

Definition throw {A} (e : SlonikError) : M A := fun s => (Err e, s).

(** A hook's outcome: its value, or its exception propagating. *)
Definition lift {A} (r : res A) : M A := fun s => (r, s).

(** `try { m } catch (error) { ... }` when the handler inspects the outcome. *)
Definition catch_res {A} (m : M A) : M (res A) :=
  fun s => let (r, s') := m s in (Ok r, s').

(** `try { m } finally { fin }` *)
Definition try_finally {A} (m : M A) (fin : M unit) : M A :=
  fun s => let (r, s') := m s in
           match fin s' with
           | (Ok _, s'') => (r, s'')
           | (Err e, s'') => (Err e, s'')
           end.

Definition set_trace (s : St) (t : list Event) : St :=
  mkSt (conn s) (terminated s) (noticeListeners s) (nextListener s) (nextQueryId s) t.

Definition emit (ev : Event) : M unit :=
  fun s => (Ok tt, set_trace s (trace s ++ [ev])).

Definition get_conn : M Connection := fun s => (Ok (conn s), s).

(** `connection.connection.slonik.terminated` *)
Definition get_terminated : M (option DriverError) := fun s => (Ok (terminated s), s).

(** `connection.connection.slonik.terminated = error` *)
Definition set_terminated (e : DriverError) : M unit :=
  fun s => (Ok tt, mkSt (conn s) (Some e) (noticeListeners s) (nextListener s)
                        (nextQueryId s) (trace s)).

(** The `createQueryId()` call number n. *)
Definition fresh_query_number : M nat :=
  fun s => (Ok (nextQueryId s), mkSt (conn s) (terminated s) (noticeListeners s)
                                     (nextListener s) (S (nextQueryId s)) (trace s)).

(** A new `noticeListener` closure. *)
Definition fresh_listener : M nat :=
  fun s => (Ok (nextListener s), mkSt (conn s) (terminated s) (noticeListeners s)
                                      (S (nextListener s)) (nextQueryId s) (trace s)).

(** EventEmitter's removeListener removes the most recently added
    occurrence of the listener. *)
Fixpoint remove_first (x : nat) (l : list nat) : list nat :=
  match l with
  | [] => []
  | y :: r => if Nat.eqb x y then r else y :: remove_first x r
  end.

Definition remove_last (x : nat) (l : list nat) : list nat :=
  rev (remove_first x (rev l)).

(** `connection.on('notice', listener)` *)
Definition connection_on (l : nat) : M unit :=
  fun s => (Ok tt, mkSt (conn s) (terminated s) (noticeListeners s ++ [l]) (nextListener s)
                        (nextQueryId s) (trace s ++ [EvNoticeOn l])).

(** `connection.off('notice', listener)` *)
Definition connection_off (l : nat) : M unit :=
  fun s => (Ok tt, mkSt (conn s) (terminated s) (remove_last l (noticeListeners s))
                        (nextListener s) (nextQueryId s) (trace s ++ [EvNoticeOff l])).

(** `inline-loops` map: rows in order, an exception stops the loop. *)
Fixpoint mapM {A B} (f : A -> M B) (l : list A) : M (list B) :=
  match l with
  | [] => ret []
  | x :: r => y <- f x ;; ys <- mapM f r ;; ret (y :: ys)
  end.

(** ** executeQuery *)

Definition code_is (e : DriverError) (c : string) : bool :=
  match code e with
  | Some c' => String.eqb c' c
  | None => false
  end.

Section ExecuteQuery.

(** `normaliseQueryValues` and `createQueryId` of ../utilities. *)
Variable normaliseQueryValues : list PrimitiveValue -> bool -> list PrimitiveValue.
Variable createQueryId : nat -> string.

(** Lines 110-114. *)
Fixpoint runBeforeTransformQuery (ctx : QueryContext) (k : nat) (ics : list Interceptor)
  (actualQuery : Query) : M Query :=
  match ics with
  | [] => ret actualQuery
  | i :: rest =>
      match beforeTransformQuery i with
      | Some hook =>
          emit (EvBeforeTransformQuery k) ;;
          q <- lift (hook ctx actualQuery) ;;
          runBeforeTransformQuery ctx (S k) rest q
      | None => runBeforeTransformQuery ctx (S k) rest actualQuery
      end
  end.

(** Lines 116-120. *)
Fixpoint runTransformQuery (ctx : QueryContext) (k : nat) (ics : list Interceptor)
  (actualQuery : Query) : M Query :=
  match ics with
  | [] => ret actualQuery
  | i :: rest =>
      match transformQuery i with
      | Some hook =>
          emit (EvTransformQuery k actualQuery) ;;
          q <- lift (hook ctx actualQuery) ;;
          runTransformQuery ctx (S k) rest q
      | None => runTransformQuery ctx (S k) rest actualQuery
      end
  end.

(** Lines 124-134: the first truthy result is returned. *)
Fixpoint runBeforeQueryExecution (ctx : QueryContext) (k : nat) (ics : list Interceptor)
  (actualQuery : Query) : M (option QueryResult) :=
  match ics with
  | [] => ret None
  | i :: rest =>
      match beforeQueryExecution i with
      | Some hook =>
          emit (EvBeforeQueryExecution k) ;;
          result <- lift (hook ctx actualQuery) ;;
          match result with
          | Some r => ret (Some r)
          | None => runBeforeQueryExecution ctx (S k) rest actualQuery
          end
      | None => runBeforeQueryExecution ctx (S k) rest actualQuery
      end
  end.

(** Lines 195-199. *)
Fixpoint runQueryExecutionError (ctx : QueryContext) (k : nat) (ics : list Interceptor)
  (actualQuery : Query) (error : SlonikError) : M unit :=
  match ics with
  | [] => ret tt
  | i :: rest =>
      match queryExecutionError i with
      | Some hook =>
          emit (EvQueryExecutionError k error) ;;
          lift (hook ctx actualQuery error) ;;
          runQueryExecutionError ctx (S k) rest actualQuery error
      | None => runQueryExecutionError ctx (S k) rest actualQuery error
      end
  end.

(** Lines 207-211. *)
Fixpoint runAfterQueryExecution (ctx : QueryContext) (k : nat) (ics : list Interceptor)
  (actualQuery : Query) (result : QueryResult) : M unit :=
  match ics with
  | [] => ret tt
  | i :: rest =>
      match afterQueryExecution i with
      | Some hook =>
          emit (EvAfterQueryExecution k) ;;
          lift (hook ctx actualQuery result) ;;
          runAfterQueryExecution ctx (S k) rest actualQuery result
      | None => runAfterQueryExecution ctx (S k) rest actualQuery result
      end
  end.

(** Lines 215-230: each hook maps the whole row set; only `rows` of the
    result object is replaced, so `fields` stays the same throughout. *)
Fixpoint runTransformRow (ctx : QueryContext) (k : nat) (ics : list Interceptor)
  (actualQuery : Query) (flds : option (list Field)) (rs : list Row) : M (list Row) :=
  match ics with
  | [] => ret rs
  | i :: rest =>
      match transformRow i with
      | Some hook =>
          rs' <- mapM (fun row => emit (EvTransformRow k) ;;
                                  lift (hook ctx actualQuery row flds)) rs ;;
          runTransformRow ctx (S k) rest actualQuery flds rs'
      | None => runTransformRow ctx (S k) rest actualQuery flds rs
      end
  end.

(** Lines 233-237. *)
Fixpoint runBeforeQueryResult (ctx : QueryContext) (k : nat) (ics : list Interceptor)
  (actualQuery : Query) (result : QueryResult) : M unit :=
  match ics with
  | [] => ret tt
  | i :: rest =>
      match beforeQueryResult i with
      | Some hook =>
          emit (EvBeforeQueryResult k) ;;
          lift (hook ctx actualQuery result) ;;
          runBeforeQueryResult ctx (S k) rest actualQuery result
      | None => runBeforeQueryResult ctx (S k) rest actualQuery result
      end
  end.

(** Lines 154-190: the catch block of the execution routine call. *)
Definition handleExecutionError {A} (error : DriverError) : M A :=
  emit (EvLogExecutionError error) ;;
  if code_is error "57P01" || String.eqb (message error) "Connection terminated" then
    set_terminated error ;;
    throw (BackendTerminatedError error)
  else if code_is error "57014"
          && includes (message error) "canceling statement due to statement timeout" then
    throw (StatementTimeoutError error)
  else if code_is error "57014" then
    throw (StatementCancelledError error)
  else if code_is error "23502" then
    throw (NotNullIntegrityConstraintViolationError error (constraint error))
  else if code_is error "23503" then
    throw (ForeignKeyIntegrityConstraintViolationError error (constraint error))
  else if code_is error "23505" then
    throw (UniqueIntegrityConstraintViolationError error (constraint error))
  else if code_is error "23514" then
    throw (CheckIntegrityConstraintViolationError error (constraint error))
  else
    throw (DriverFailure error).

(** Lines 145-193: the inner try/catch/finally.  The notices the routine
    emits reach [noticeListener], which is attached, and are returned
    with the result. *)
Definition executeAttempt (ctx : QueryContext) (actualQuery : Query)
  (executionRoutine : ExecutionRoutine) (noticeListener : nat)
  : M (list Notice * QueryResult) :=
  try_finally
    (c <- get_conn ;;
     let vals := normaliseQueryValues (values actualQuery) (native c) in
     emit (EvExecutionRoutine (sql actualQuery) vals actualQuery) ;;
     match executionRoutine ctx (sql actualQuery) vals actualQuery with
     | (ns, Resolved result) => ret (ns, result)
     | (_, Rejected error) => handleExecutionError error
     end)
    (connection_off noticeListener).

(** `inheritedQueryId || createQueryId()` *)
Definition resolveQueryId (inheritedQueryId : option string) : M string :=
  match inheritedQueryId with
  | Some id => if String.eqb id "" then n <- fresh_query_number ;; ret (createQueryId n)
               else ret id
  | None => n <- fresh_query_number ;; ret (createQueryId n)
  end.

(** Lines 55-120: the preconditions, the context and the query transforms.
    Capturing the stack trace (lines 67-81) has no effect the model
    observes.  The working query is built as a value of its own: the
    values array that the shallow spread of line 95 shares with
    `originalQuery` is not modelled, so in-place changes a hook makes to
    that array are not reflected in the context's original query. *)
Definition setup (clientConfiguration : ClientConfiguration) (rawSql : string)
  (vals : list PrimitiveValue) (inheritedQueryId : option string)
  : M (QueryContext * Query) :=
  t <- get_terminated ;;
  match t with
  | Some cause => throw (BackendTerminatedError cause)
  | None =>
      if String.eqb (trim rawSql) "" then
        throw (InvalidInputError "Unexpected SQL input. Query cannot be empty.")
      else if String.eqb (trim rawSql) "$1" then
        throw (InvalidInputError
                 "Unexpected SQL input. Query cannot be empty. Found only value binding.")
      else
        queryId <- resolveQueryId inheritedQueryId ;;
        c <- get_conn ;;
        let originalQuery := mkQuery rawSql vals in
        let actualQuery := mkQuery (sql originalQuery) (values originalQuery) in
        let ctx := mkQueryContext (connectionId c) originalQuery (poolId c) queryId
                                  (transactionId c) in
        q1 <- runBeforeTransformQuery ctx 0 (interceptors clientConfiguration) actualQuery ;;
        q2 <- runTransformQuery ctx 0 (interceptors clientConfiguration) q1 ;;
        ret (ctx, q2)
  end.

(** Lines 136-239 once no beforeQueryExecution hook short-circuited. *)
Definition executeAndFinish (clientConfiguration : ClientConfiguration) (ctx : QueryContext)
  (actualQuery : Query) (executionRoutine : ExecutionRoutine) : M QueryResult :=
  let ics := interceptors clientConfiguration in
  noticeListener <- fresh_listener ;;
  connection_on noticeListener ;;
  attempt <- catch_res (executeAttempt ctx actualQuery executionRoutine noticeListener) ;;
  match attempt with
  | Err error =>
      runQueryExecutionError ctx 0 ics actualQuery error ;;
      throw error
  | Ok (ns, raw) =>
      let result := mkQueryResult (rows raw) (fields raw) ns in
      runAfterQueryExecution ctx 0 ics actualQuery result ;;
      result' <- match rows result with
                 | Some rs =>
                     rs' <- runTransformRow ctx 0 ics actualQuery (fields result) rs ;;
                     ret (mkQueryResult (Some rs') (fields result) (notices result))
                 | None => ret result
                 end ;;
      runBeforeQueryResult ctx 0 ics actualQuery result' ;;
      ret result'
  end.

(** The default export of src/routines/executeQuery.js. *)
Definition executeQuery (clientConfiguration : ClientConfiguration) (rawSql : string)
  (vals : list PrimitiveValue) (inheritedQueryId : option string)
  (executionRoutine : ExecutionRoutine) : M QueryResult :=
  pre <- setup clientConfiguration rawSql vals inheritedQueryId ;;
  let (ctx, actualQuery) := pre in
  short <- runBeforeQueryExecution ctx 0 (interceptors clientConfiguration) actualQuery ;;
  match short with
  | Some result => emit EvLogShortCircuit ;; ret result
  | None => executeAndFinish clientConfiguration ctx actualQuery executionRoutine
  end.

(** Several calls on one connection, in sequence; each call's outcome
    is recorded and the next call starts from the state it left. *)
Record Call := mkCall {
  callConfiguration : ClientConfiguration;
  callSql : string;
  callValues : list PrimitiveValue;
  callQueryId : option string;
  callRoutine : ExecutionRoutine }.

Fixpoint runCalls (calls : list Call) : M (list (res QueryResult)) :=
  match calls with
  | [] => ret []
  | c :: rest =>
      r <- catch_res (executeQuery (callConfiguration c) (callSql c) (callValues c)
                                   (callQueryId c) (callRoutine c)) ;;
      rs <- runCalls rest ;;
      ret (r :: rs)
  end.

(** ** Vocabulary of the claims *)

(** The hooks a selector picks out of the interceptor list, with their
    positions, in registration order. *)
Fixpoint hooks_of {H} (sel : Interceptor -> option H) (k : nat) (ics : list Interceptor)
  : list (nat * H) :=
  match ics with
  | [] => []
  | i :: rest =>
      match sel i with
      | Some h => (k, h) :: hooks_of sel (S k) rest
      | None => hooks_of sel (S k) rest
      end
  end.

(** [Chain hs x ins y]: the hooks [hs] are applied one after the other
    starting from [x]; [ins] lists each hook's position and the input it
    received, which is the previous hook's output; [y] is the last output. *)
Inductive Chain {X : Type} : list (nat * (X -> res X)) -> X -> list (nat * X) -> X -> Prop :=
| Chain_nil x : Chain [] x [] x
| Chain_cons k h hs x x' ins y :
    h x = Ok x' -> Chain hs x' ins y -> Chain ((k, h) :: hs) x ((k, x) :: ins) y.

(** The error classification as an ordered first-match-wins table of
    (predicate on the driver error, error kind). *)
Definition is_termination (e : DriverError) : bool :=
  code_is e "57P01" || String.eqb (message e) "Connection terminated".

Definition classificationTable : list ((DriverError -> bool) * (DriverError -> SlonikError)) :=
  [ (is_termination, BackendTerminatedError);
    (fun e => code_is e "57014"
              && includes (message e) "canceling statement due to statement timeout",
     StatementTimeoutError);
    (fun e => code_is e "57014", StatementCancelledError);
    (fun e => code_is e "23502",
     fun e => NotNullIntegrityConstraintViolationError e (constraint e));
    (fun e => code_is e "23503",
     fun e => ForeignKeyIntegrityConstraintViolationError e (constraint e));
    (fun e => code_is e "23505",
     fun e => UniqueIntegrityConstraintViolationError e (constraint e));
    (fun e => code_is e "23514",
     fun e => CheckIntegrityConstraintViolationError e (constraint e)) ].

(** First matching rule; no match: the original error, unclassified. *)
Fixpoint firstMatch (rules : list ((DriverError -> bool) * (DriverError -> SlonikError)))
  (e : DriverError) : SlonikError :=
  match rules with
  | [] => DriverFailure e
  | (p, kind) :: rest => if p e then kind e else firstMatch rest e
  end.

Definition classify (e : DriverError) : SlonikError := firstMatch classificationTable e.

(** Events of a call of the execution routine. *)
Definition is_execution_event (ev : Event) : bool :=
  match ev with
  | EvExecutionRoutine _ _ _ => true
  | _ => false
  end.

(** The state once the call's notice listener is registered. *)
Definition listening (s : St) : St :=
  mkSt (conn s) (terminated s) (noticeListeners s ++ [nextListener s]) (S (nextListener s))
       (nextQueryId s) (trace s ++ [EvNoticeOn (nextListener s)]).

(** Every listener on the connection is one the supply has handed out. *)
Definition listeners_fresh (s : St) : Prop :=
  Forall (fun l => l < nextListener s) (noticeListeners s).

(** ** Concrete inputs *)

Definition idValues (vs : list PrimitiveValue) (_ : bool) : list PrimitiveValue := vs.
Definition constQueryId (_ : nat) : string := "01HQUERYID".

Definition conn0 : Connection := mkConnection "1" "pool-1" None false.
Definition st0 : St := mkSt conn0 None [] 0 0 [].

Definition err_terminated : DriverError :=
  mkDriverError (Some "57P01") "terminating connection due to administrator command" None.
Definition err_timeout : DriverError :=
  mkDriverError (Some "57014") "canceling statement due to statement timeout" None.
Definition err_unique : DriverError :=
  mkDriverError (Some "23505") "duplicate key value" (Some "person_email_key").

Definition st_terminated : St := mkSt conn0 (Some err_terminated) [] 0 0 [].

Definition noHooks : Interceptor := mkInterceptor None None None None None None None.

Definition appendComment (c : string) : Interceptor :=
  mkInterceptor None (Some (fun _ q => Ok (mkQuery (sql q ++ c) (values q))))
                None None None None None.

Definition cachedResult : QueryResult := mkQueryResult (Some [[("id", VNumber 7)]]) None [].

Definition answerFromCache (hit : bool) : Interceptor :=
  mkInterceptor None None
    (Some (fun _ _ => Ok (if hit then Some cachedResult else None))) None None None None.

Definition observeError : Interceptor :=
  mkInterceptor None None None (Some (fun _ _ _ => Ok (Some cachedResult))) None None None.

Definition throwOnError : Interceptor :=
  mkInterceptor None None None (Some (fun _ _ _ => Err (InterceptorFailure "hook failed")))
                None None None.

Definition tagRow (name : string) : Interceptor :=
  mkInterceptor None None None None None
    (Some (fun _ _ row _ => Ok ((name, VBool true) :: row))) None.

Definition resolveRows (_ : QueryContext) (_ : string) (_ : list PrimitiveValue) (_ : Query)
  : list Notice * ExecOutcome :=
  (["NOTICE: hello"], Resolved (mkQueryResult (Some [[("id", VNumber 1)]; [("id", VNumber 2)]])
                                              (Some ["id"]) [])).

Definition resolveStream (_ : QueryContext) (_ : string) (_ : list PrimitiveValue) (_ : Query)
  : list Notice * ExecOutcome :=
  ([], Resolved (mkQueryResult None None [])).

Definition rejectWith (e : DriverError) (_ : QueryContext) (_ : string)
  (_ : list PrimitiveValue) (_ : Query) : list Notice * ExecOutcome :=
  ([], Rejected e).

Definition throwAfterExecution : Interceptor :=
  mkInterceptor None None None None (Some (fun _ _ _ => Err (InterceptorFailure "after failed")))
                None None.

Definition failBeforeExecution : Interceptor :=
  mkInterceptor None None (Some (fun _ _ => Err (InterceptorFailure "cache down")))
                None None None None.

(** ** Monad lemmas *)

Lemma bind_ok {A B} (m : M A) (f : A -> M B) s a s' :
  m s = (Ok a, s') -> bind m f s = f a s'.
Proof. intros H. unfold bind. rewrite H. reflexivity. Qed.

Lemma bind_err {A B} (m : M A) (f : A -> M B) s e s' :
  m s = (Err e, s') -> bind m f s = (Err e, s').
Proof. intros H. unfold bind. rewrite H. reflexivity. Qed.

Lemma set_trace_app s evs1 evs2 :
  set_trace (set_trace s (trace s ++ evs1)) (trace s ++ evs1 ++ evs2)
  = set_trace s (trace s ++ evs1 ++ evs2).
Proof. reflexivity. Qed.

(** [appends P m]: [m] leaves everything but the trace alone and only
    appends events satisfying [P]. *)
Definition appends (P : Event -> Prop) {A} (m : M A) : Prop :=
  forall s r s', m s = (r, s') ->
  exists evs, s' = set_trace s (trace s ++ evs) /\ Forall P evs.

Lemma appends_ret P {A} (a : A) : appends P (ret a).
Proof.
  intros s r s' H. injection H as _ <-. exists []. split; [|constructor].
  destruct s; unfold set_trace; simpl; rewrite app_nil_r; reflexivity.
Qed.

Lemma appends_lift P {A} (o : res A) : appends P (lift o).
Proof.
  intros s r s' H. injection H as _ <-. exists []. split; [|constructor].
  destruct s; unfold set_trace; simpl; rewrite app_nil_r; reflexivity.
Qed.

Lemma appends_emit (P : Event -> Prop) ev : P ev -> appends P (emit ev).
Proof.
  intros HP s r s' H. injection H as _ <-. exists [ev]. split; [reflexivity|].
  constructor; [exact HP|constructor].
Qed.

Lemma appends_bind P {A B} (m : M A) (f : A -> M B) :
  appends P m -> (forall a, appends P (f a)) -> appends P (bind m f).
Proof.
  intros Hm Hf s r s' H. unfold bind in H.
  destruct (m s) as [[a|e] s1] eqn:E.
  - destruct (Hm _ _ _ E) as [evs1 [-> F1]].
    destruct (Hf a _ _ _ H) as [evs2 [-> F2]].
    exists (evs1 ++ evs2). split.
    + unfold set_trace; simpl. rewrite app_assoc. reflexivity.
    + apply Forall_app. split; assumption.
  - injection H as _ <-. exact (Hm _ _ _ E).
Qed.

Lemma appends_weaken (P Q : Event -> Prop) {A} (m : M A) :
  (forall ev, P ev -> Q ev) -> appends P m -> appends Q m.
Proof.
  intros HPQ Hm s r s' H. destruct (Hm _ _ _ H) as [evs [E F]].
  exists evs. split; [exact E|]. eapply Forall_impl; eassumption.
Qed.

Create HintDb appends_db.
#[local] Hint Resolve appends_ret appends_lift appends_bind : appends_db.

Ltac solve_appends :=
  repeat first
    [ progress (intros; simpl)
    | apply appends_bind
    | apply appends_ret
    | apply appends_lift
    | apply appends_emit; eauto
    | match goal with |- appends _ (match ?x with _ => _ end) => destruct x end ].

(** ** The interceptor loops *)

Lemma appends_mapM P {A B} (f : A -> M B) (l : list A) :
  (forall x, appends P (f x)) -> appends P (mapM f l).
Proof.
  intros Hf. induction l as [|x l IH]; simpl; [apply appends_ret|].
  apply appends_bind; [apply Hf|intros y].
  apply appends_bind; [exact IH|intros ys]. apply appends_ret.
Qed.

Ltac loop_appends IH :=
  repeat first
    [ apply IH
    | apply appends_ret
    | apply appends_lift
    | apply appends_mapM; intros
    | apply appends_bind; intros
    | apply appends_emit; eauto
    | match goal with |- appends _ (match ?x with _ => _ end) => destruct x end ].

Lemma runBeforeTransformQuery_appends ctx k ics q :
  appends (fun ev => exists j, ev = EvBeforeTransformQuery j)
          (runBeforeTransformQuery ctx k ics q).
Proof.
  revert k q. induction ics as [|i ics IH]; intros k q; simpl; loop_appends IH.
Qed.

Lemma runTransformQuery_appends ctx k ics q :
  appends (fun ev => exists j x, ev = EvTransformQuery j x) (runTransformQuery ctx k ics q).
Proof.
  revert k q. induction ics as [|i ics IH]; intros k q; simpl; loop_appends IH.
Qed.

Lemma runBeforeQueryExecution_appends ctx k ics q :
  appends (fun ev => exists j, ev = EvBeforeQueryExecution j)
          (runBeforeQueryExecution ctx k ics q).
Proof.
  revert k. induction ics as [|i ics IH]; intros k; simpl; loop_appends IH.
Qed.

Lemma runQueryExecutionError_appends ctx k ics q x :
  appends (fun ev => exists j, ev = EvQueryExecutionError j x)
          (runQueryExecutionError ctx k ics q x).
Proof.
  revert k. induction ics as [|i ics IH]; intros k; simpl; loop_appends IH.
Qed.

Lemma runAfterQueryExecution_appends ctx k ics q r :
  appends (fun ev => exists j, ev = EvAfterQueryExecution j)
          (runAfterQueryExecution ctx k ics q r).
Proof.
  revert k. induction ics as [|i ics IH]; intros k; simpl; loop_appends IH.
Qed.

Lemma runTransformRow_appends ctx k ics q flds rs :
  appends (fun ev => exists j, ev = EvTransformRow j) (runTransformRow ctx k ics q flds rs).
Proof.
  revert k rs. induction ics as [|i ics IH]; intros k rs; simpl; loop_appends IH.
Qed.

Lemma runBeforeQueryResult_appends ctx k ics q r :
  appends (fun ev => exists j, ev = EvBeforeQueryResult j)
          (runBeforeQueryResult ctx k ics q r).
Proof.
  revert k. induction ics as [|i ics IH]; intros k; simpl; loop_appends IH.
Qed.


Lemma set_trace_snoc s ev evs :
  set_trace (set_trace s (trace s ++ [ev])) ((trace s ++ [ev]) ++ evs)
  = set_trace s (trace s ++ ev :: evs).
Proof. unfold set_trace; simpl. rewrite <- app_assoc. reflexivity. Qed.

Lemma set_trace_nil s : set_trace s (trace s ++ []) = s.
Proof. destruct s; unfold set_trace; simpl. rewrite app_nil_r. reflexivity. Qed.

Lemma runBeforeTransformQuery_ok ctx k ics q s q' s' :
  runBeforeTransformQuery ctx k ics q s = (Ok q', s') ->
  exists ins,
    Chain (hooks_of (fun i => option_map (fun h => h ctx) (beforeTransformQuery i)) k ics)
          q ins q'
    /\ s' = set_trace s (trace s ++ map (fun p => EvBeforeTransformQuery (fst p)) ins).
Proof.
  revert k q s. induction ics as [|i ics IH]; intros k q s H; simpl in *.
  - injection H as <- <-. exists []. split; [constructor|]. symmetry. apply set_trace_nil.
  - destruct (beforeTransformQuery i) as [hook|]; simpl; [|exact (IH _ _ _ H)].
    unfold bind, emit, lift in H; simpl in H.
    destruct (hook ctx q) as [q1|e] eqn:Eh; [|discriminate].
    destruct (IH _ _ _ H) as [ins [HC ->]].
    exists ((k, q) :: ins). split; [econstructor; eauto|].
    simpl. apply set_trace_snoc.
Qed.

Lemma runTransformQuery_ok ctx k ics q s q' s' :
  runTransformQuery ctx k ics q s = (Ok q', s') ->
  exists ins,
    Chain (hooks_of (fun i => option_map (fun h => h ctx) (transformQuery i)) k ics) q ins q'
    /\ s' = set_trace s (trace s ++ map (fun p => EvTransformQuery (fst p) (snd p)) ins).
Proof.
  revert k q s. induction ics as [|i ics IH]; intros k q s H; simpl in *.
  - injection H as <- <-. exists []. split; [constructor|]. symmetry. apply set_trace_nil.
  - destruct (transformQuery i) as [hook|]; simpl; [|exact (IH _ _ _ H)].
    unfold bind, emit, lift in H; simpl in H.
    destruct (hook ctx q) as [q1|e] eqn:Eh; [|discriminate].
    destruct (IH _ _ _ H) as [ins [HC ->]].
    exists ((k, q) :: ins). split; [econstructor; eauto|].
    simpl. apply set_trace_snoc.
Qed.

Lemma runBeforeQueryExecution_first ctx k ics q s pre j r post :
  hooks_of (fun i => option_map (fun h => h ctx q) (beforeQueryExecution i)) k ics
    = pre ++ (j, Ok (Some r)) :: post ->
  Forall (fun p => snd p = Ok None) pre ->
  runBeforeQueryExecution ctx k ics q s
    = (Ok (Some r), set_trace s (trace s ++ map (fun p => EvBeforeQueryExecution (fst p))
                                                (pre ++ [(j, Ok (Some r))]))).
Proof.
  revert k s pre. induction ics as [|i ics IH]; intros k s pre Hh Hpre; simpl in *.
  - destruct pre; discriminate.
  - destruct (beforeQueryExecution i) as [hook|]; simpl in Hh; [|exact (IH _ _ _ Hh Hpre)].
    unfold bind, emit, lift; simpl.
    destruct pre as [|p pre]; simpl in Hh.
    + injection Hh as -> Ho _. rewrite Ho. reflexivity.
    + injection Hh as Hp Hh. inversion Hpre as [|p' pre' Hnone Hpre']; subst.
      simpl in Hnone. rewrite Hnone.
      rewrite (IH _ _ _ Hh Hpre'). simpl. f_equal. apply set_trace_snoc.
Qed.

Lemma runQueryExecutionError_all_ok ctx k ics q x s :
  Forall (fun p => exists v, snd p = Ok v)
         (hooks_of (fun i => option_map (fun h => h ctx q x) (queryExecutionError i)) k ics) ->
  runQueryExecutionError ctx k ics q x s
    = (Ok tt, set_trace s (trace s ++ map (fun p => EvQueryExecutionError (fst p) x)
             (hooks_of (fun i => option_map (fun h => h ctx q x) (queryExecutionError i)) k ics))).
Proof.
  revert k s. induction ics as [|i ics IH]; intros k s Hok; simpl in *.
  - unfold ret. rewrite set_trace_nil. reflexivity.
  - destruct (queryExecutionError i) as [hook|]; simpl in *; [|exact (IH _ _ Hok)].
    inversion Hok as [|p' l' [v Hv] Hok']; subst. simpl in Hv.
    unfold bind, emit, lift; simpl. rewrite Hv.
    rewrite (IH _ _ Hok'). simpl. f_equal. apply set_trace_snoc.
Qed.

Lemma runQueryExecutionError_throws ctx k ics q x s pre j y post :
  hooks_of (fun i => option_map (fun h => h ctx q x) (queryExecutionError i)) k ics
    = pre ++ (j, Err y) :: post ->
  Forall (fun p => exists v, snd p = Ok v) pre ->
  runQueryExecutionError ctx k ics q x s
    = (Err y, set_trace s (trace s ++ map (fun p => EvQueryExecutionError (fst p) x)
                                          (pre ++ [(j, Err y)]))).
Proof.
  revert k s pre. induction ics as [|i ics IH]; intros k s pre Hh Hpre; simpl in *.
  - destruct pre; discriminate.
  - destruct (queryExecutionError i) as [hook|]; simpl in Hh; [|exact (IH _ _ _ Hh Hpre)].
    unfold bind, emit, lift; simpl.
    destruct pre as [|p pre]; simpl in Hh.
    + injection Hh as -> Ho _. rewrite Ho. reflexivity.
    + injection Hh as Hp Hh. inversion Hpre as [|p' pre' [v Hv] Hpre']; subst.
      simpl in Hv. rewrite Hv.
      rewrite (IH _ _ _ Hh Hpre'). simpl. f_equal. apply set_trace_snoc.
Qed.

Lemma mapM_ok {A B} (f : A -> M B) l s ys s' :
  mapM f l s = (Ok ys, s') -> Forall2 (fun x y => exists s1 s2, f x s1 = (Ok y, s2)) l ys.
Proof.
  revert s ys s'. induction l as [|x l IH]; intros s ys s' H; simpl in H.
  - injection H as <- _. constructor.
  - unfold bind in H.
    destruct (f x s) as [[y|e] s1] eqn:Ef; [|discriminate].
    destruct (mapM f l s1) as [[ys1|e] s2] eqn:Em; [|discriminate].
    injection H as <- _. constructor; [eauto|]. exact (IH _ _ _ Em).
Qed.

Lemma mapM_rows_ok k (g : Row -> res Row) rs s ys s' :
  mapM (fun row => emit (EvTransformRow k) ;; lift (g row)) rs s = (Ok ys, s') ->
  Forall2 (fun r y => g r = Ok y) rs ys.
Proof.
  intros H. apply mapM_ok in H. eapply Forall2_impl; [|exact H].
  intros r y [s1 [s2 E]]. unfold bind, emit, lift in E; simpl in E.
  injection E as E _. exact E.
Qed.

Lemma runTransformRow_ok ctx k ics q flds rs s rs' s' :
  runTransformRow ctx k ics q flds rs s = (Ok rs', s') ->
  Forall2 (fun r r' => exists ins,
             Chain (hooks_of (fun i => option_map (fun h => fun row => h ctx q row flds)
                                                  (transformRow i)) k ics) r ins r')
          rs rs'.
Proof.
  revert k rs s rs' s'. induction ics as [|i ics IH]; intros k rs s rs' s' H; simpl in *.
  - injection H as <- _. induction rs; constructor; [exists []; constructor|assumption].
  - destruct (transformRow i) as [hook|]; simpl; [|exact (IH _ _ _ _ _ H)].
    unfold bind at 1 in H.
    destruct (mapM _ rs s) as [[rs1|e] s1] eqn:Em; [|discriminate].
    apply mapM_rows_ok in Em. apply IH in H.
    revert rs' H. induction Em as [|r r1 rs rs1 Hr Em IHm]; intros rs' H.
    + inversion H. constructor.
    + inversion H as [|r1' r' rs1' rs'' [ins HC] H']; subst.
      constructor; [|exact (IHm _ H')].
      exists ((k, r) :: ins). econstructor; eauto.
Qed.


(** ** The execution attempt (lines 145-193) *)

Lemma remove_last_snoc l x : remove_last x (l ++ [x]) = l.
Proof.
  unfold remove_last. rewrite rev_app_distr. simpl. rewrite Nat.eqb_refl.
  apply rev_involutive.
Qed.

Lemma handleExecutionError_spec {A} e s :
  @handleExecutionError A e s
  = (Err (classify e),
     mkSt (conn s) (if is_termination e then Some e else terminated s)
          (noticeListeners s) (nextListener s) (nextQueryId s)
          (trace s ++ [EvLogExecutionError e])).
Proof.
  unfold handleExecutionError, classify, classificationTable, is_termination, bind, emit,
    set_terminated, throw, set_trace.
  simpl.
  destruct (code_is e "57P01" || String.eqb (message e) "Connection terminated");
    [reflexivity|].
  destruct (code_is e "57014"); simpl;
    [destruct (includes (message e) "canceling statement due to statement timeout");
     reflexivity|].
  destruct (code_is e "23502"); [reflexivity|].
  destruct (code_is e "23503"); [reflexivity|].
  destruct (code_is e "23505"); [reflexivity|].
  destruct (code_is e "23514"); reflexivity.
Qed.

Lemma executeAttempt_rejected ctx q exec lid s ns e :
  exec ctx (sql q) (normaliseQueryValues (values q) (native (conn s))) q = (ns, Rejected e) ->
  executeAttempt ctx q exec lid s
  = (Err (classify e),
     mkSt (conn s) (if is_termination e then Some e else terminated s)
          (remove_last lid (noticeListeners s)) (nextListener s) (nextQueryId s)
          (trace s ++ [EvExecutionRoutine (sql q) (normaliseQueryValues (values q) (native (conn s))) q;
                       EvLogExecutionError e; EvNoticeOff lid])).
Proof.
  intros H. unfold executeAttempt, try_finally, bind at 1, get_conn.
  unfold bind at 1, emit. simpl. rewrite H. rewrite handleExecutionError_spec.
  unfold connection_off. simpl. rewrite <- !app_assoc. reflexivity.
Qed.

Lemma executeAttempt_resolved ctx q exec lid s ns raw :
  exec ctx (sql q) (normaliseQueryValues (values q) (native (conn s))) q = (ns, Resolved raw) ->
  executeAttempt ctx q exec lid s
  = (Ok (ns, raw),
     mkSt (conn s) (terminated s) (remove_last lid (noticeListeners s)) (nextListener s)
          (nextQueryId s)
          (trace s ++ [EvExecutionRoutine (sql q) (normaliseQueryValues (values q) (native (conn s))) q;
                       EvNoticeOff lid])).
Proof.
  intros H. unfold executeAttempt, try_finally, bind at 1, get_conn.
  unfold bind at 1, emit. simpl. rewrite H.
  unfold ret, connection_off. simpl. rewrite <- !app_assoc. reflexivity.
Qed.


(** ** The preconditions and the query transforms (lines 55-120) *)

Lemma setup_terminated cfg rawSql vals inh s c :
  terminated s = Some c ->
  setup cfg rawSql vals inh s = (Err (BackendTerminatedError c), s).
Proof.
  intros H. unfold setup, bind at 1, get_terminated. rewrite H. reflexivity.
Qed.

Lemma setup_invalid cfg rawSql vals inh s :
  terminated s = None ->
  trim rawSql = "" \/ trim rawSql = "$1" ->
  exists msg, setup cfg rawSql vals inh s = (Err (InvalidInputError msg), s).
Proof.
  intros H [Ht|Ht]; unfold setup, bind at 1, get_terminated; rewrite H; rewrite Ht;
    simpl; eexists; reflexivity.
Qed.

Lemma resolveQueryId_spec inh s :
  exists id n, resolveQueryId inh s
               = (Ok id, mkSt (conn s) (terminated s) (noticeListeners s) (nextListener s) n
                              (trace s)).
Proof.
  destruct s as [c t l nl nq tr].
  unfold resolveQueryId, bind, fresh_query_number, ret.
  destruct inh as [id|]; [destruct (String.eqb id "")|]; simpl; eauto.
Qed.

Lemma setup_ok cfg rawSql vals inh s ctx q s1 :
  setup cfg rawSql vals inh s = (Ok (ctx, q), s1) ->
  terminated s = None /\
  ctxOriginalQuery ctx = mkQuery rawSql vals /\
  exists q0 ins0 ins n,
    Chain (hooks_of (fun i => option_map (fun h => h ctx) (beforeTransformQuery i)) 0
                    (interceptors cfg)) (mkQuery rawSql vals) ins0 q0 /\
    Chain (hooks_of (fun i => option_map (fun h => h ctx) (transformQuery i)) 0
                    (interceptors cfg)) q0 ins q /\
    s1 = mkSt (conn s) (terminated s) (noticeListeners s) (nextListener s) n
              (trace s ++ map (fun p => EvBeforeTransformQuery (fst p)) ins0
                       ++ map (fun p => EvTransformQuery (fst p) (snd p)) ins).
Proof.
  intros H. unfold setup, bind at 1, get_terminated in H.
  destruct (terminated s) as [c|] eqn:Et; [discriminate|].
  destruct (String.eqb (trim rawSql) "") ; [discriminate|].
  destruct (String.eqb (trim rawSql) "$1") ; [discriminate|].
  destruct (resolveQueryId_spec inh s) as [id [n E]].
  unfold bind at 1 in H. rewrite E in H.
  unfold bind at 1, get_conn in H. simpl in H.
  unfold bind at 1 in H.
  destruct (runBeforeTransformQuery _ _ _ _ _) as [[q1|e] s2] eqn:E1; [|discriminate].
  unfold bind in H.
  destruct (runTransformQuery _ _ _ _ _) as [[q2|e] s3] eqn:E2; [|discriminate].
  injection H as <- <- <-.
  apply runBeforeTransformQuery_ok in E1. destruct E1 as [ins0 [C1 ->]].
  apply runTransformQuery_ok in E2. destruct E2 as [ins [C2 ->]].
  split; [reflexivity|]. split; [reflexivity|].
  exists q1, ins0, ins, n. split; [exact C1|]. split; [exact C2|].
  unfold set_trace; simpl. rewrite <- app_assoc, Et. reflexivity.
Qed.


(** ** The paths through executeQuery *)

Lemma executeQuery_setup_err cfg rawSql vals inh exec s x s1 :
  setup cfg rawSql vals inh s = (Err x, s1) ->
  executeQuery cfg rawSql vals inh exec s = (Err x, s1).
Proof. intros H. unfold executeQuery. exact (bind_err _ _ _ _ _ H). Qed.

Lemma executeQuery_bqe cfg rawSql vals inh exec s ctx q s1 :
  setup cfg rawSql vals inh s = (Ok (ctx, q), s1) ->
  executeQuery cfg rawSql vals inh exec s
  = (short <- runBeforeQueryExecution ctx 0 (interceptors cfg) q ;;
     match short with
     | Some result => emit EvLogShortCircuit ;; ret result
     | None => executeAndFinish cfg ctx q exec
     end) s1.
Proof. intros H. unfold executeQuery. rewrite (bind_ok _ _ _ _ _ H). reflexivity. Qed.

Lemma executeQuery_reaches cfg rawSql vals inh exec s ctx q s1 s2 :
  setup cfg rawSql vals inh s = (Ok (ctx, q), s1) ->
  runBeforeQueryExecution ctx 0 (interceptors cfg) q s1 = (Ok None, s2) ->
  executeQuery cfg rawSql vals inh exec s = executeAndFinish cfg ctx q exec s2.
Proof.
  intros H1 H2. rewrite (executeQuery_bqe _ _ _ _ _ _ _ _ _ H1).
  rewrite (bind_ok _ _ _ _ _ H2). reflexivity.
Qed.

Lemma executeAndFinish_rejected cfg ctx q exec s ns e :
  exec ctx (sql q) (normaliseQueryValues (values q) (native (conn s))) q = (ns, Rejected e) ->
  executeAndFinish cfg ctx q exec s
  = (runQueryExecutionError ctx 0 (interceptors cfg) q (classify e) ;; throw (classify e))
      (mkSt (conn s) (if is_termination e then Some e else terminated s)
            (noticeListeners s) (S (nextListener s)) (nextQueryId s)
            (trace s ++ [EvNoticeOn (nextListener s);
                         EvExecutionRoutine (sql q)
                           (normaliseQueryValues (values q) (native (conn s))) q;
                         EvLogExecutionError e; EvNoticeOff (nextListener s)])).
Proof.
  intros H. unfold executeAndFinish, bind at 1, fresh_listener. simpl.
  unfold bind at 1, connection_on. simpl.
  unfold bind at 1, catch_res.
  erewrite executeAttempt_rejected by (simpl; exact H).
  simpl. rewrite remove_last_snoc, <- !app_assoc. reflexivity.
Qed.

Lemma executeAndFinish_resolved cfg ctx q exec s ns raw :
  exec ctx (sql q) (normaliseQueryValues (values q) (native (conn s))) q = (ns, Resolved raw) ->
  executeAndFinish cfg ctx q exec s
  = (let ics := interceptors cfg in
     let result := mkQueryResult (rows raw) (fields raw) ns in
     runAfterQueryExecution ctx 0 ics q result ;;
     result' <- match rows result with
                | Some rs =>
                    rs' <- runTransformRow ctx 0 ics q (fields result) rs ;;
                    ret (mkQueryResult (Some rs') (fields result) (notices result))
                | None => ret result
                end ;;
     runBeforeQueryResult ctx 0 ics q result' ;;
     ret result')
      (mkSt (conn s) (terminated s) (noticeListeners s) (S (nextListener s)) (nextQueryId s)
            (trace s ++ [EvNoticeOn (nextListener s);
                         EvExecutionRoutine (sql q)
                           (normaliseQueryValues (values q) (native (conn s))) q;
                         EvNoticeOff (nextListener s)])).
Proof.
  intros H. unfold executeAndFinish, bind at 1, fresh_listener. simpl.
  unfold bind at 1, connection_on. simpl.
  unfold bind at 1, catch_res.
  erewrite executeAttempt_resolved by (simpl; exact H).
  simpl. rewrite remove_last_snoc, <- !app_assoc. reflexivity.
Qed.


Definition pre_execution_event (ev : Event) : Prop :=
  (exists j, ev = EvBeforeTransformQuery j) \/ (exists j x, ev = EvTransformQuery j x)
  \/ (exists j, ev = EvBeforeQueryExecution j).

Lemma reached_state cfg rawSql vals inh s ctx q s1 s2 :
  setup cfg rawSql vals inh s = (Ok (ctx, q), s1) ->
  runBeforeQueryExecution ctx 0 (interceptors cfg) q s1 = (Ok None, s2) ->
  conn s2 = conn s /\ terminated s2 = None /\ terminated s = None /\
  noticeListeners s2 = noticeListeners s /\ nextListener s2 = nextListener s /\
  exists evs, trace s2 = trace s ++ evs /\ Forall pre_execution_event evs.
Proof.
  intros H1 H2.
  destruct (setup_ok _ _ _ _ _ _ _ _ H1) as [Et [_ [q0 [ins0 [ins [n [_ [_ ->]]]]]]]].
  destruct (runBeforeQueryExecution_appends _ _ _ _ _ _ _ H2) as [evs [-> F]].
  simpl. repeat split; try assumption.
  exists ((map (fun p => EvBeforeTransformQuery (fst p)) ins0
           ++ map (fun p => EvTransformQuery (fst p) (snd p)) ins) ++ evs).
  split; [rewrite <- !app_assoc; reflexivity|].
  apply Forall_app; split; [apply Forall_app; split|].
  - apply Forall_forall. intros ev Hin. apply in_map_iff in Hin.
    destruct Hin as [p' [<- _]]. left. eauto.
  - apply Forall_forall. intros ev Hin. apply in_map_iff in Hin.
    destruct Hin as [p' [<- _]]. right; left. eauto.
  - eapply Forall_impl; [|exact F]. intros ev Hev. right; right. exact Hev.
Qed.

Lemma runCalls_terminated calls s c :
  terminated s = Some c ->
  runCalls calls s = (Ok (map (fun _ => Err (BackendTerminatedError c)) calls), s).
Proof.
  intros H. induction calls as [|call calls IH]; simpl; [reflexivity|].
  unfold bind at 1, catch_res.
  rewrite (executeQuery_setup_err _ _ _ _ _ _ _ _ (setup_terminated _ _ _ _ _ _ H)).
  unfold bind at 1. rewrite IH. reflexivity.
Qed.

Definition post_execution_event (ev : Event) : Prop :=
  (exists j x, ev = EvQueryExecutionError j x) \/ (exists j, ev = EvAfterQueryExecution j)
  \/ (exists j, ev = EvTransformRow j) \/ (exists j, ev = EvBeforeQueryResult j).

Lemma appends_throw P {A} x : appends P (@throw A x).
Proof.
  intros s r s' H. injection H as _ <-. exists []. split; [|constructor].
  symmetry. apply set_trace_nil.
Qed.

Lemma setup_frame cfg rawSql vals inh s r s1 :
  setup cfg rawSql vals inh s = (r, s1) ->
  conn s1 = conn s /\ noticeListeners s1 = noticeListeners s /\ nextListener s1 = nextListener s.
Proof.
  intros H. unfold setup, bind at 1, get_terminated in H.
  destruct (terminated s) as [c|] eqn:Et; [injection H as _ <-; auto|].
  destruct (String.eqb (trim rawSql) "") ; [injection H as _ <-; auto|].
  destruct (String.eqb (trim rawSql) "$1") ; [injection H as _ <-; auto|].
  destruct (resolveQueryId_spec inh s) as [id [n E]].
  unfold bind at 1 in H. rewrite E in H.
  unfold bind at 1, get_conn in H. simpl in H.
  unfold bind at 1 in H.
  destruct (runBeforeTransformQuery _ _ _ _ _) as [[q1|x] s2] eqn:E1;
    destruct (runBeforeTransformQuery_appends _ _ _ _ _ _ _ E1) as [evs1 [-> _]];
    [|injection H as _ <-; auto].
  unfold bind in H.
  destruct (runTransformQuery _ _ _ _ _) as [[q2|x] s3] eqn:E2;
    destruct (runTransformQuery_appends _ _ _ _ _ _ _ E2) as [evs2 [-> _]];
    injection H as _ <-; auto.
Qed.

Lemma finish_resolved_appends cfg ctx q ns raw :
  appends post_execution_event
    (let ics := interceptors cfg in
     let result := mkQueryResult (rows raw) (fields raw) ns in
     runAfterQueryExecution ctx 0 ics q result ;;
     result' <- match rows result with
                | Some rs =>
                    rs' <- runTransformRow ctx 0 ics q (fields result) rs ;;
                    ret (mkQueryResult (Some rs') (fields result) (notices result))
                | None => ret result
                end ;;
     runBeforeQueryResult ctx 0 ics q result' ;;
     ret result').
Proof.
  simpl. apply appends_bind; [|intros _].
  { eapply appends_weaken; [|apply runAfterQueryExecution_appends].
    intros ev Hev. unfold post_execution_event. tauto. }
  apply appends_bind; [|intros res'].
  { destruct (rows raw) as [rs|]; [|apply appends_ret].
    apply appends_bind; [|intros; apply appends_ret].
    eapply appends_weaken; [|apply runTransformRow_appends].
    intros ev Hev. unfold post_execution_event. tauto. }
  apply appends_bind; [|intros _; apply appends_ret].
  eapply appends_weaken; [|apply runBeforeQueryResult_appends].
  intros ev Hev. unfold post_execution_event. tauto.
Qed.

Lemma executeAndFinish_shape cfg ctx q exec s r s' :
  executeAndFinish cfg ctx q exec s = (r, s') ->
  exists mid post,
    conn s' = conn s /\ noticeListeners s' = noticeListeners s /\
    trace s' = trace s ++ [EvNoticeOn (nextListener s);
                           EvExecutionRoutine (sql q)
                             (normaliseQueryValues (values q) (native (conn s))) q]
                       ++ mid ++ [EvNoticeOff (nextListener s)] ++ post /\
    (mid = [] \/ exists e, mid = [EvLogExecutionError e]) /\
    Forall post_execution_event post.
Proof.
  intros H.
  destruct (exec ctx (sql q) (normaliseQueryValues (values q) (native (conn s))) q)
    as [ns [raw|e]] eqn:He.
  - rewrite (executeAndFinish_resolved _ _ _ _ _ _ _ He) in H.
    destruct (finish_resolved_appends cfg ctx q ns raw _ _ _ H) as [evs [-> F]].
    exists [], evs. simpl. repeat split; auto. rewrite <- app_assoc. reflexivity.
  - rewrite (executeAndFinish_rejected _ _ _ _ _ _ _ He) in H.
    assert (Ha : appends post_execution_event
                   (runQueryExecutionError ctx 0 (interceptors cfg) q (classify e) ;;
                    @throw QueryResult (classify e))).
    { apply appends_bind; [|intros _; apply appends_throw].
      eapply appends_weaken; [|apply runQueryExecutionError_appends].
      intros ev Hev. unfold post_execution_event. left. destruct Hev as [j ->]. eauto. }
    destruct (Ha _ _ _ H) as [evs [-> F]].
    exists [EvLogExecutionError e], evs. simpl. repeat split; eauto.
    rewrite <- app_assoc. reflexivity.
Qed.

Lemma finish_resolved_no_rows cfg ctx q ns raw :
  rows raw = None ->
  appends (fun ev => forall j, ev <> EvTransformRow j)
    (let ics := interceptors cfg in
     let result := mkQueryResult (rows raw) (fields raw) ns in
     runAfterQueryExecution ctx 0 ics q result ;;
     result' <- match rows result with
                | Some rs =>
                    rs' <- runTransformRow ctx 0 ics q (fields result) rs ;;
                    ret (mkQueryResult (Some rs') (fields result) (notices result))
                | None => ret result
                end ;;
     runBeforeQueryResult ctx 0 ics q result' ;;
     ret result').
Proof.
  intros Hnone. simpl. rewrite Hnone.
  apply appends_bind; [|intros _].
  { eapply appends_weaken; [|apply runAfterQueryExecution_appends].
    intros ev [k ->] j. discriminate. }
  apply appends_bind; [apply appends_ret|intros res'].
  apply appends_bind; [|intros _; apply appends_ret].
  eapply appends_weaken; [|apply runBeforeQueryResult_appends].
  intros ev [k ->] j. discriminate.
Qed.

(** ** The remaining hook loops on their success and failure paths *)

Lemma runAfterQueryExecution_ok ctx k ics q r s u s' :
  runAfterQueryExecution ctx k ics q r s = (Ok u, s') ->
  s' = set_trace s (trace s ++ map (fun p => EvAfterQueryExecution (fst p))
                                   (hooks_of afterQueryExecution k ics)).
Proof.
  revert k s. induction ics as [|i ics IH]; intros k s H; simpl in *.
  - injection H as _ <-. symmetry. apply set_trace_nil.
  - destruct (afterQueryExecution i) as [hook|]; [|exact (IH _ _ H)].
    unfold bind, emit, lift in H; simpl in H.
    destruct (hook ctx q r) as [v|x]; [|discriminate].
    rewrite (IH _ _ H). simpl. apply set_trace_snoc.
Qed.

Lemma runBeforeQueryResult_ok ctx k ics q r s u s' :
  runBeforeQueryResult ctx k ics q r s = (Ok u, s') ->
  s' = set_trace s (trace s ++ map (fun p => EvBeforeQueryResult (fst p))
                                   (hooks_of beforeQueryResult k ics)).
Proof.
  revert k s. induction ics as [|i ics IH]; intros k s H; simpl in *.
  - injection H as _ <-. symmetry. apply set_trace_nil.
  - destruct (beforeQueryResult i) as [hook|]; [|exact (IH _ _ H)].
    unfold bind, emit, lift in H; simpl in H.
    destruct (hook ctx q r) as [v|x]; [|discriminate].
    rewrite (IH _ _ H). simpl. apply set_trace_snoc.
Qed.

Lemma mapM_rows_trace k (g : Row -> res Row) rs s ys s' :
  mapM (fun row => emit (EvTransformRow k) ;; lift (g row)) rs s = (Ok ys, s') ->
  s' = set_trace s (trace s ++ repeat (EvTransformRow k) (length rs)).
Proof.
  revert s ys s'. induction rs as [|r rs IH]; intros s ys s' H; simpl in H.
  - injection H as _ <-. symmetry. apply set_trace_nil.
  - unfold bind at 1, emit, lift in H. simpl in H. unfold bind at 1 in H.
    destruct (g r) as [y|x]; [|discriminate].
    unfold bind in H.
    destruct (mapM _ rs _) as [[ys1|x] s1] eqn:Em; [|discriminate].
    injection H as _ <-. rewrite (IH _ _ _ Em). simpl. apply set_trace_snoc.
Qed.

Lemma runTransformRow_trace ctx k ics q flds rs s rs' s' :
  runTransformRow ctx k ics q flds rs s = (Ok rs', s') ->
  length rs' = length rs /\
  s' = set_trace s (trace s ++ flat_map (fun p => repeat (EvTransformRow (fst p)) (length rs))
                                        (hooks_of transformRow k ics)).
Proof.
  revert k rs s rs' s'. induction ics as [|i ics IH]; intros k rs s rs' s' H; simpl in *.
  - injection H as <- <-. split; [reflexivity|]. symmetry. apply set_trace_nil.
  - destruct (transformRow i) as [hook|]; [|exact (IH _ _ _ _ _ H)].
    unfold bind at 1 in H.
    destruct (mapM _ rs s) as [[rs1|x] s1] eqn:Em; [|discriminate].
    pose proof (mapM_rows_ok _ _ _ _ _ _ Em) as HF.
    apply Forall2_length in HF.
    rewrite (mapM_rows_trace _ _ _ _ _ _ Em) in H.
    destruct (IH _ _ _ _ _ H) as [Hlen ->].
    rewrite HF in *. split; [exact Hlen|].
    simpl. unfold set_trace; simpl. rewrite <- app_assoc. reflexivity.
Qed.

Lemma runAfterQueryExecution_throws ctx k ics q r s pre j y post :
  hooks_of (fun i => option_map (fun h => h ctx q r) (afterQueryExecution i)) k ics
    = pre ++ (j, Err y) :: post ->
  Forall (fun p => exists v, snd p = Ok v) pre ->
  runAfterQueryExecution ctx k ics q r s
    = (Err y, set_trace s (trace s ++ map (fun p => EvAfterQueryExecution (fst p))
                                          (pre ++ [(j, Err y)]))).
Proof.
  revert k s pre. induction ics as [|i ics IH]; intros k s pre Hh Hpre; simpl in *.
  - destruct pre; discriminate.
  - destruct (afterQueryExecution i) as [hook|]; simpl in Hh; [|exact (IH _ _ _ Hh Hpre)].
    unfold bind, emit, lift; simpl.
    destruct pre as [|p pre]; simpl in Hh.
    + injection Hh as -> Ho _. rewrite Ho. reflexivity.
    + injection Hh as Hp Hh. inversion Hpre as [|p' pre' [v Hv] Hpre']; subst.
      simpl in Hv. rewrite Hv.
      rewrite (IH _ _ _ Hh Hpre'). simpl. f_equal. apply set_trace_snoc.
Qed.

Lemma runBeforeQueryExecution_throws ctx k ics q s pre j y post :
  hooks_of (fun i => option_map (fun h => h ctx q) (beforeQueryExecution i)) k ics
    = pre ++ (j, Err y) :: post ->
  Forall (fun p => snd p = Ok None) pre ->
  runBeforeQueryExecution ctx k ics q s
    = (Err y, set_trace s (trace s ++ map (fun p => EvBeforeQueryExecution (fst p))
                                          (pre ++ [(j, Err y)]))).
Proof.
  revert k s pre. induction ics as [|i ics IH]; intros k s pre Hh Hpre; simpl in *.
  - destruct pre; discriminate.
  - destruct (beforeQueryExecution i) as [hook|]; simpl in Hh; [|exact (IH _ _ _ Hh Hpre)].
    unfold bind, emit, lift; simpl.
    destruct pre as [|p pre]; simpl in Hh.
    + injection Hh as -> Ho _. rewrite Ho. reflexivity.
    + injection Hh as Hp Hh. inversion Hpre as [|p' pre' Hnone Hpre']; subst.
      simpl in Hnone. rewrite Hnone.
      rewrite (IH _ _ _ Hh Hpre'). simpl. f_equal. apply set_trace_snoc.
Qed.

(** The success path after the execution routine resolved. *)
Lemma finish_resolved_ok cfg ctx q ns raw s res s' :
  (let ics := interceptors cfg in
   let result := mkQueryResult (rows raw) (fields raw) ns in
   runAfterQueryExecution ctx 0 ics q result ;;
   result' <- match rows result with
              | Some rs =>
                  rs' <- runTransformRow ctx 0 ics q (fields result) rs ;;
                  ret (mkQueryResult (Some rs') (fields result) (notices result))
              | None => ret result
              end ;;
   runBeforeQueryResult ctx 0 ics q result' ;;
   ret result') s = (Ok res, s') ->
  notices res = ns /\ fields res = fields raw /\
  option_map (@length Row) (rows res) = option_map (@length Row) (rows raw) /\
  s' = set_trace s (trace s
         ++ map (fun p => EvAfterQueryExecution (fst p))
                (hooks_of afterQueryExecution 0 (interceptors cfg))
         ++ match rows raw with
            | Some rs => flat_map (fun p => repeat (EvTransformRow (fst p)) (length rs))
                                  (hooks_of transformRow 0 (interceptors cfg))
            | None => []
            end
         ++ map (fun p => EvBeforeQueryResult (fst p))
                (hooks_of beforeQueryResult 0 (interceptors cfg))).
Proof.
  cbv zeta. intros H. unfold bind at 1 in H.
  destruct (runAfterQueryExecution _ _ _ _ _ s) as [[u|x] s1] eqn:E1; [|discriminate].
  apply runAfterQueryExecution_ok in E1. subst s1.
  simpl in H. destruct (rows raw) as [rs|] eqn:Er.
  - unfold bind at 1 in H. unfold bind at 1 in H.
    destruct (runTransformRow _ _ _ _ _ _ _) as [[rs'|x] s2] eqn:E2; [|discriminate].
    apply runTransformRow_trace in E2. destruct E2 as [Hlen ->].
    unfold ret at 1 in H. unfold bind at 1 in H.
    destruct (runBeforeQueryResult _ _ _ _ _ _) as [[u'|x] s3] eqn:E3; [|discriminate].
    apply runBeforeQueryResult_ok in E3. subst s3.
    injection H as <- <-. simpl. rewrite Hlen.
    repeat split. unfold set_trace; simpl. rewrite <- !app_assoc. reflexivity.
  - unfold bind at 1 in H. unfold ret at 1 in H. cbv beta iota in H.
    unfold bind at 1 in H.
    destruct (runBeforeQueryResult ctx 0 (interceptors cfg) q _ _) as [[u'|x] s3] eqn:E3;
      [|discriminate].
    apply runBeforeQueryResult_ok in E3. subst s3.
    injection H as <- <-. simpl.
    repeat split. unfold set_trace; simpl. rewrite <- !app_assoc. reflexivity.
Qed.

Lemma setup_effects cfg rawSql vals inh s r s1 :
  setup cfg rawSql vals inh s = (r, s1) ->
  conn s1 = conn s /\ terminated s1 = terminated s /\
  noticeListeners s1 = noticeListeners s /\ nextListener s1 = nextListener s /\
  exists evs, trace s1 = trace s ++ evs /\ Forall pre_execution_event evs.
Proof.
  intros H. unfold setup, bind at 1, get_terminated in H.
  assert (Hnil : exists evs, trace s = trace s ++ evs /\ Forall pre_execution_event evs)
    by (exists []; rewrite app_nil_r; auto).
  destruct (terminated s) as [c|] eqn:Et; [injection H as _ <-; auto|].
  destruct (String.eqb (trim rawSql) "") ; [injection H as _ <-; auto|].
  destruct (String.eqb (trim rawSql) "$1") ; [injection H as _ <-; auto|].
  destruct (resolveQueryId_spec inh s) as [id [n E]].
  unfold bind at 1 in H. rewrite E in H.
  unfold bind at 1, get_conn in H. simpl in H.
  unfold bind at 1 in H.
  destruct (runBeforeTransformQuery _ _ _ _ _) as [[q1|x] s2] eqn:E1;
    destruct (runBeforeTransformQuery_appends _ _ _ _ _ _ _ E1) as [evs1 [-> F1]].
  - unfold bind in H.
    destruct (runTransformQuery _ _ _ _ _) as [[q2|x] s3] eqn:E2;
      destruct (runTransformQuery_appends _ _ _ _ _ _ _ E2) as [evs2 [-> F2]];
      injection H as _ <-; simpl; repeat split; auto;
      exists (evs1 ++ evs2); (split; [rewrite app_assoc; reflexivity|]);
      (apply Forall_app; split; (eapply Forall_impl; [|eassumption]);
       intros ev Hev; unfold pre_execution_event; tauto).
  - injection H as _ <-. simpl. repeat split; auto.
    exists evs1. split; [reflexivity|].
    eapply Forall_impl; [|eassumption]. intros ev Hev; unfold pre_execution_event; tauto.
Qed.

Lemma setup_context cfg rawSql vals inh s ctx q s1 :
  setup cfg rawSql vals inh s = (Ok (ctx, q), s1) ->
  exists s0,
    resolveQueryId inh s = (Ok (ctxQueryId ctx), s0) /\
    ctx = mkQueryContext (connectionId (conn s)) (mkQuery rawSql vals) (poolId (conn s))
                         (ctxQueryId ctx) (transactionId (conn s)) /\
    nextQueryId s1 = nextQueryId s0.
Proof.
  intros H. unfold setup, bind at 1, get_terminated in H.
  destruct (terminated s) as [c|] eqn:Et; [discriminate|].
  destruct (String.eqb (trim rawSql) "") ; [discriminate|].
  destruct (String.eqb (trim rawSql) "$1") ; [discriminate|].
  destruct (resolveQueryId_spec inh s) as [id [n E]].
  unfold bind at 1 in H. rewrite E in H.
  unfold bind at 1, get_conn in H. simpl in H.
  unfold bind at 1 in H.
  destruct (runBeforeTransformQuery _ _ _ _ _) as [[q1|x] s2] eqn:E1; [|discriminate].
  destruct (runBeforeTransformQuery_appends _ _ _ _ _ _ _ E1) as [evs1 [-> _]].
  unfold bind in H.
  destruct (runTransformQuery _ _ _ _ _) as [[q2|x] s3] eqn:E2; [|discriminate].
  destruct (runTransformQuery_appends _ _ _ _ _ _ _ E2) as [evs2 [-> _]].
  injection H as <- <- <-. simpl.
  eexists. split; [exact E|]. split; reflexivity.
Qed.

Lemma appends_frame P {A} (m : M A) s r s' :
  appends P m -> m s = (r, s') ->
  conn s' = conn s /\ terminated s' = terminated s /\
  noticeListeners s' = noticeListeners s /\ nextListener s' = nextListener s /\
  nextQueryId s' = nextQueryId s /\ exists evs, trace s' = trace s ++ evs /\ Forall P evs.
Proof.
  intros Hm H. destruct (Hm _ _ _ H) as [evs [-> F]]. simpl. eauto 10.
Qed.

Lemma filter_execution_nil (P : Event -> Prop) evs :
  (forall ev, P ev -> is_execution_event ev = false) -> Forall P evs ->
  filter is_execution_event evs = [].
Proof.
  intros HP F. induction F as [|ev evs Hev F IH]; simpl; [reflexivity|].
  rewrite (HP _ Hev). exact IH.
Qed.

Lemma pre_execution_not_execution ev :
  pre_execution_event ev -> is_execution_event ev = false.
Proof.
  intros [[j ->]|[[j [x ->]]|[j ->]]]; reflexivity.
Qed.

Lemma post_execution_not_execution ev :
  post_execution_event ev -> is_execution_event ev = false.
Proof.
  intros [[j [x ->]]|[[j ->]|[[j ->]|[j ->]]]]; reflexivity.
Qed.

(** ** Claims *)

(** C4: if the connection's termination flag already holds a cause, the
    call fails at once with BackendTerminatedError carrying that cause and
    leaves the state unchanged: no event is traced, so no interceptor hook
    fires and the execution routine is not called. *)
Theorem executeQuery_terminated_fails_fast cfg rawSql vals inh exec st c :
  terminated st = Some c ->
  executeQuery cfg rawSql vals inh exec st = (Err (BackendTerminatedError c), st).
Proof.
  intros H. apply executeQuery_setup_err. apply setup_terminated. exact H.
Qed.

(** C3 (amended): for a SQL string whose trimmed form is empty or exactly
    `$1`, the call leaves the state unchanged (no hook, no execution
    routine) and fails with InvalidInputError when the termination flag is
    unset, and with BackendTerminatedError carrying the stored cause when
    it is set. *)
Theorem executeQuery_rejects_blank_sql cfg rawSql vals inh exec st :
  trim rawSql = "" \/ trim rawSql = "$1" ->
  (terminated st = None ->
   exists msg, executeQuery cfg rawSql vals inh exec st = (Err (InvalidInputError msg), st))
  /\ (forall c, terminated st = Some c ->
      executeQuery cfg rawSql vals inh exec st = (Err (BackendTerminatedError c), st)).
Proof.
  intros Hsql. split.
  - intros Ht. destruct (setup_invalid cfg rawSql vals inh st Ht Hsql) as [msg E].
    exists msg. exact (executeQuery_setup_err _ _ _ _ _ _ _ _ E).
  - intros c Hc. apply executeQuery_setup_err. apply setup_terminated. exact Hc.
Qed.

(** C1 (amended): when the execution routine rejects with a driver error
    [e], the error the call raises (when no queryExecutionError hook
    throws) is [classify e]: the first matching row of the ordered table
    termination (code 57P01 or message `Connection terminated`) ->
    BackendTerminated; 57014 with a statement-timeout message ->
    StatementTimeout; other 57014 -> StatementCancelled; 23502, 23503,
    23505, 23514 -> the four constraint violations carrying the driver's
    constraint name; no match -> the original error unchanged.  Whatever
    the hooks do, the termination row also sets the connection's
    termination flag to [e], and every other row leaves it unset. *)
Theorem executeQuery_classifies_execution_error cfg rawSql vals inh exec st ctx q st1 st2
  ns e r st' :
  setup cfg rawSql vals inh st = (Ok (ctx, q), st1) ->
  runBeforeQueryExecution ctx 0 (interceptors cfg) q st1 = (Ok None, st2) ->
  exec ctx (sql q) (normaliseQueryValues (values q) (native (conn st))) q = (ns, Rejected e) ->
  executeQuery cfg rawSql vals inh exec st = (r, st') ->
  terminated st' = (if is_termination e then Some e else None) /\
  (Forall (fun p => exists v, snd p = Ok v)
          (hooks_of (fun i => option_map (fun h => h ctx q (classify e)) (queryExecutionError i))
                    0 (interceptors cfg)) ->
   r = Err (classify e)).
Proof.
  intros H1 H2 He Hr.
  destruct (reached_state _ _ _ _ _ _ _ _ _ H1 H2) as [Hc [Ht2 _]].
  rewrite (executeQuery_reaches _ _ _ _ _ _ _ _ _ _ H1 H2) in Hr.
  rewrite <- Hc in He.
  rewrite (executeAndFinish_rejected _ _ _ _ _ _ _ He) in Hr.
  split.
  - assert (Ha : appends post_execution_event
                   (runQueryExecutionError ctx 0 (interceptors cfg) q (classify e) ;;
                    @throw QueryResult (classify e))).
    { apply appends_bind; [|intros _; apply appends_throw].
      eapply appends_weaken; [|apply runQueryExecutionError_appends].
      intros ev Hev. unfold post_execution_event. left. destruct Hev as [j ->]. eauto. }
    destruct (Ha _ _ _ Hr) as [evs [-> _]].
    simpl. rewrite Ht2. reflexivity.
  - intros Hhooks.
    unfold bind at 1 in Hr. rewrite runQueryExecutionError_all_ok in Hr by exact Hhooks.
    injection Hr as <- _. reflexivity.
Qed.

(** C2: when the execution routine rejects with a termination error [e]
    (code 57P01 or message `Connection terminated`), the call stores [e]
    in the connection's termination flag and raises
    BackendTerminatedError [e] (when no queryExecutionError hook throws);
    from then on every further call on the connection fails with
    BackendTerminatedError [e] and leaves the state, hence the flag,
    unchanged, without any event such as a call of the execution routine. *)
Theorem termination_error_poisons_connection cfg rawSql vals inh exec st ctx q st1 st2
  ns e r st' :
  setup cfg rawSql vals inh st = (Ok (ctx, q), st1) ->
  runBeforeQueryExecution ctx 0 (interceptors cfg) q st1 = (Ok None, st2) ->
  exec ctx (sql q) (normaliseQueryValues (values q) (native (conn st))) q = (ns, Rejected e) ->
  is_termination e = true ->
  executeQuery cfg rawSql vals inh exec st = (r, st') ->
  terminated st' = Some e /\
  classify e = BackendTerminatedError e /\
  (Forall (fun p => exists v, snd p = Ok v)
          (hooks_of (fun i => option_map (fun h => h ctx q (BackendTerminatedError e))
                                         (queryExecutionError i)) 0 (interceptors cfg)) ->
   r = Err (BackendTerminatedError e)) /\
  (forall calls,
      runCalls calls st' = (Ok (map (fun _ => Err (BackendTerminatedError e)) calls), st')).
Proof.
  intros H1 H2 He Hterm Hr.
  assert (Hcl : classify e = BackendTerminatedError e).
  { unfold classify, classificationTable. simpl. rewrite Hterm. reflexivity. }
  destruct (reached_state _ _ _ _ _ _ _ _ _ H1 H2) as [Hc _].
  rewrite (executeQuery_reaches _ _ _ _ _ _ _ _ _ _ H1 H2) in Hr.
  rewrite <- Hc in He.
  rewrite (executeAndFinish_rejected _ _ _ _ _ _ _ He) in Hr.
  rewrite Hterm, Hcl in Hr.
  assert (Ht : terminated st' = Some e).
  { unfold bind in Hr.
    destruct (runQueryExecutionError _ _ _ _ _ _) as [[u|y] s3] eqn:E;
    destruct (runQueryExecutionError_appends _ _ _ _ _ _ _ _ E) as [evs [-> _]];
    injection Hr as _ <-; reflexivity. }
  split; [exact Ht|]. split; [exact Hcl|]. split.
  - intros Hhooks. unfold bind at 1 in Hr.
    rewrite runQueryExecutionError_all_ok in Hr by exact Hhooks.
    injection Hr as <- _. reflexivity.
  - intros calls. apply runCalls_terminated. exact Ht.
Qed.


(** C5: when, on the query the transforms produced, the beforeQueryExecution
    hooks before position [j] all return nothing and the hook at [j]
    returns a result [r], the call returns [r]; the state after the call is
    the state after the transforms with only those hooks' invocations and
    the log line appended: the listener list is untouched and no notice
    listener, execution routine, afterQueryExecution, transformRow or
    beforeQueryResult event occurs. *)
Theorem beforeQueryExecution_short_circuits cfg rawSql vals inh exec st ctx q st1 pre j r post :
  setup cfg rawSql vals inh st = (Ok (ctx, q), st1) ->
  hooks_of (fun i => option_map (fun h => h ctx q) (beforeQueryExecution i)) 0
           (interceptors cfg) = pre ++ (j, Ok (Some r)) :: post ->
  Forall (fun p => snd p = Ok None) pre ->
  executeQuery cfg rawSql vals inh exec st
  = (Ok r, set_trace st1 (trace st1 ++ map (fun p => EvBeforeQueryExecution (fst p))
                                           (pre ++ [(j, Ok (Some r))])
                                     ++ [EvLogShortCircuit])).
Proof.
  intros H1 Hh Hpre.
  rewrite (executeQuery_bqe _ _ _ _ _ _ _ _ _ H1).
  rewrite (bind_ok _ _ _ _ _ (runBeforeQueryExecution_first _ _ _ _ st1 _ _ _ _ Hh Hpre)).
  unfold bind, emit, ret. simpl. unfold set_trace. simpl. rewrite <- app_assoc. reflexivity.
Qed.


(** C6: on a connection whose listeners all come from the listener supply,
    every call leaves the connection's listener list as it found it; when
    the call reaches the execution routine, its notice listener is
    registered right before the routine is called and removed before any
    queryExecutionError hook runs, whatever the outcome (in between, at
    most the log line of a failure), and is no longer attached afterwards. *)
Theorem notice_listener_scoped cfg rawSql vals inh exec st r st' :
  listeners_fresh st ->
  executeQuery cfg rawSql vals inh exec st = (r, st') ->
  noticeListeners st' = noticeListeners st /\
  ~ In (nextListener st) (noticeListeners st') /\
  (forall ctx q st1 st2,
      setup cfg rawSql vals inh st = (Ok (ctx, q), st1) ->
      runBeforeQueryExecution ctx 0 (interceptors cfg) q st1 = (Ok None, st2) ->
      exists pre mid post,
        trace st' = trace st ++ pre
                    ++ [EvNoticeOn (nextListener st);
                        EvExecutionRoutine (sql q)
                          (normaliseQueryValues (values q) (native (conn st))) q]
                    ++ mid ++ [EvNoticeOff (nextListener st)] ++ post /\
        Forall pre_execution_event pre /\
        (mid = [] \/ exists e, mid = [EvLogExecutionError e]) /\
        Forall post_execution_event post).
Proof.
  intros Hfresh Hr.
  assert (Hl : noticeListeners st' = noticeListeners st).
  { destruct (setup cfg rawSql vals inh st) as [[[ctx q]|x] s1] eqn:E1;
      destruct (setup_frame _ _ _ _ _ _ _ E1) as [Hc1 [Hl1 Hn1]].
    2: { rewrite (executeQuery_setup_err _ _ _ _ _ _ _ _ E1) in Hr.
         injection Hr as _ <-. exact Hl1. }
    rewrite (executeQuery_bqe _ _ _ _ _ _ _ _ _ E1) in Hr.
    unfold bind at 1 in Hr.
    destruct (runBeforeQueryExecution _ _ _ _ _) as [[short|x] s2] eqn:E2;
      destruct (runBeforeQueryExecution_appends _ _ _ _ _ _ _ E2) as [evs [-> _]].
    2: { injection Hr as _ <-. exact Hl1. }
    destruct short as [res|].
    - unfold bind, emit, ret in Hr. simpl in Hr. injection Hr as _ <-. exact Hl1.
    - destruct (executeAndFinish_shape _ _ _ _ _ _ _ Hr) as [mid [post [_ [Hl2 _]]]].
      rewrite Hl2. exact Hl1. }
  split; [exact Hl|]. split.
  { rewrite Hl. intros Hin. unfold listeners_fresh in Hfresh.
    rewrite Forall_forall in Hfresh. specialize (Hfresh _ Hin). lia. }
  intros ctx q st1 st2 H1 H2.
  destruct (reached_state _ _ _ _ _ _ _ _ _ H1 H2)
    as [Hc [_ [_ [_ [Hn [evs [Htr Fpre]]]]]]].
  rewrite (executeQuery_reaches _ _ _ _ _ _ _ _ _ _ H1 H2) in Hr.
  destruct (executeAndFinish_shape _ _ _ _ _ _ _ Hr) as [mid [post [_ [_ [Ht [Hmid Fpost]]]]]].
  exists evs, mid, post. rewrite Ht, Htr, Hn, Hc. rewrite <- !app_assoc.
  split; [reflexivity|]. auto.
Qed.


(** C7: the transformQuery hooks run in registration order, each on the
    previous one's output: the first receives the working copy of the
    original query (as the beforeTransformQuery hooks left it, the copy
    itself when there are none), each invocation is traced with its input,
    and the execution routine receives the last output [q]: its SQL, its
    values (through normaliseQueryValues) and [q] itself. *)
Theorem transformQuery_hooks_compose cfg rawSql vals inh exec st ctx q st1 :
  setup cfg rawSql vals inh st = (Ok (ctx, q), st1) ->
  exists q0 ins0 ins,
    Chain (hooks_of (fun i => option_map (fun h => h ctx) (beforeTransformQuery i)) 0
                    (interceptors cfg)) (mkQuery rawSql vals) ins0 q0 /\
    (hooks_of (fun i => option_map (fun h => h ctx) (beforeTransformQuery i)) 0
              (interceptors cfg) = [] -> q0 = mkQuery rawSql vals) /\
    Chain (hooks_of (fun i => option_map (fun h => h ctx) (transformQuery i)) 0
                    (interceptors cfg)) q0 ins q /\
    trace st1 = trace st ++ map (fun p => EvBeforeTransformQuery (fst p)) ins0
                         ++ map (fun p => EvTransformQuery (fst p) (snd p)) ins /\
    (forall st2 r st',
        runBeforeQueryExecution ctx 0 (interceptors cfg) q st1 = (Ok None, st2) ->
        executeQuery cfg rawSql vals inh exec st = (r, st') ->
        exists rest,
          trace st' = trace st2 ++ EvNoticeOn (nextListener st)
                      :: EvExecutionRoutine (sql q)
                           (normaliseQueryValues (values q) (native (conn st))) q
                      :: rest).
Proof.
  intros H1.
  destruct (setup_ok _ _ _ _ _ _ _ _ H1) as [_ [_ [q0 [ins0 [ins [n [C0 [C1 Hs1]]]]]]]].
  exists q0, ins0, ins. split; [exact C0|]. split.
  { intros Hnil. rewrite Hnil in C0. inversion C0. reflexivity. }
  split; [exact C1|]. split; [rewrite Hs1; reflexivity|].
  intros st2 r st' H2 Hr.
  destruct (reached_state _ _ _ _ _ _ _ _ _ H1 H2) as [Hc [_ [_ [_ [Hn _]]]]].
  rewrite (executeQuery_reaches _ _ _ _ _ _ _ _ _ _ H1 H2) in Hr.
  destruct (executeAndFinish_shape _ _ _ _ _ _ _ Hr) as [mid [post [_ [_ [Ht _]]]]].
  exists (mid ++ [EvNoticeOff (nextListener st2)] ++ post).
  rewrite Ht, Hn, Hc. reflexivity.
Qed.


(** C8: when the execution routine rejects with [e], the call fails
    whatever the queryExecutionError hooks do; when none of them throws
    (whatever value each returns), they are invoked one after the other in
    registration order, each with the classified error, after the notice
    listener is removed, and the call then raises that classified error. *)
Theorem queryExecutionError_hooks_cannot_suppress cfg rawSql vals inh exec st ctx q st1 st2
  ns e r st' :
  setup cfg rawSql vals inh st = (Ok (ctx, q), st1) ->
  runBeforeQueryExecution ctx 0 (interceptors cfg) q st1 = (Ok None, st2) ->
  exec ctx (sql q) (normaliseQueryValues (values q) (native (conn st))) q = (ns, Rejected e) ->
  executeQuery cfg rawSql vals inh exec st = (r, st') ->
  (exists y, r = Err y) /\
  (Forall (fun p => exists v, snd p = Ok v)
          (hooks_of (fun i => option_map (fun h => h ctx q (classify e)) (queryExecutionError i))
                    0 (interceptors cfg)) ->
   r = Err (classify e) /\
   exists t, trace st' = t ++ EvNoticeOff (nextListener st)
               :: map (fun p => EvQueryExecutionError (fst p) (classify e))
                      (hooks_of (fun i => option_map (fun h => h ctx q (classify e))
                                                     (queryExecutionError i))
                                0 (interceptors cfg))).
Proof.
  intros H1 H2 He Hr.
  destruct (reached_state _ _ _ _ _ _ _ _ _ H1 H2) as [Hc [_ [_ [_ [Hn _]]]]].
  rewrite (executeQuery_reaches _ _ _ _ _ _ _ _ _ _ H1 H2) in Hr.
  rewrite <- Hc in He.
  rewrite (executeAndFinish_rejected _ _ _ _ _ _ _ He) in Hr.
  split.
  - unfold bind in Hr.
    destruct (runQueryExecutionError _ _ _ _ _ _) as [[u|y] s3];
      injection Hr as <- _; eauto.
  - intros Hhooks. unfold bind at 1 in Hr.
    rewrite runQueryExecutionError_all_ok in Hr by exact Hhooks.
    injection Hr as <- <-. split; [reflexivity|].
    exists (trace st2 ++ [EvNoticeOn (nextListener st2);
                          EvExecutionRoutine (sql q)
                            (normaliseQueryValues (values q) (native (conn st2))) q;
                          EvLogExecutionError e]).
    unfold set_trace. cbn [trace]. rewrite Hn. rewrite <- !app_assoc. reflexivity.
Qed.



(** C9: when the execution routine resolves with [raw] and the call
    returns [res]: if [raw] carries rows, each row of [res] is the
    corresponding row of [raw] passed through every transformRow hook in
    registration order, each hook receiving the previous one's output; if
    [raw] carries no rows, the call triggers no transformRow hook. *)
Theorem transformRow_hooks_compose cfg rawSql vals inh exec st ctx q st1 st2 ns raw r st' :
  setup cfg rawSql vals inh st = (Ok (ctx, q), st1) ->
  runBeforeQueryExecution ctx 0 (interceptors cfg) q st1 = (Ok None, st2) ->
  exec ctx (sql q) (normaliseQueryValues (values q) (native (conn st))) q = (ns, Resolved raw) ->
  executeQuery cfg rawSql vals inh exec st = (r, st') ->
  (forall rs res, rows raw = Some rs -> r = Ok res ->
     exists rs', rows res = Some rs' /\
       Forall2 (fun row row' =>
                  exists ins,
                    Chain (hooks_of (fun i => option_map (fun h => fun row => h ctx q row (fields raw))
                                                         (transformRow i)) 0 (interceptors cfg))
                          row ins row') rs rs') /\
  (rows raw = None ->
   exists evs, trace st' = trace st ++ evs /\ forall j, ~ In (EvTransformRow j) evs).
Proof.
  intros H1 H2 He Hr.
  destruct (reached_state _ _ _ _ _ _ _ _ _ H1 H2)
    as [Hc [_ [_ [_ [_ [evs0 [Htr0 F0]]]]]]].
  rewrite (executeQuery_reaches _ _ _ _ _ _ _ _ _ _ H1 H2) in Hr.
  rewrite <- Hc in He.
  rewrite (executeAndFinish_resolved _ _ _ _ _ _ _ He) in Hr.
  split.
  - intros rs res Hrows ->. simpl in Hr. rewrite Hrows in Hr.
    unfold bind in Hr.
    destruct (runAfterQueryExecution _ _ _ _ _ _) as [[u|x] s3]; [|discriminate].
    destruct (runTransformRow _ _ _ _ _ _ _) as [[rs'|x] s4] eqn:Etr; [|discriminate].
    unfold ret at 1 in Hr. cbv beta iota in Hr.
    destruct (runBeforeQueryResult ctx 0 (interceptors cfg) q _ s4) as [[u'|x] s5];
      [|discriminate].
    injection Hr as <- _. exists rs'. split; [reflexivity|].
    exact (runTransformRow_ok _ _ _ _ _ _ _ _ _ Etr).
  - intros Hnone.
    destruct (finish_resolved_no_rows cfg ctx q ns raw Hnone _ _ _ Hr) as [evs [-> F]].
    simpl. rewrite Htr0.
    eexists. split.
    { rewrite <- !app_assoc. reflexivity. }
    intros j Hin. apply in_app_or in Hin. destruct Hin as [Hin|Hin].
    + rewrite Forall_forall in F0. specialize (F0 _ Hin).
      destruct F0 as [[k Hk]|[[k [x Hk]]|[k Hk]]]; discriminate.
    + apply in_app_or in Hin. destruct Hin as [Hin|Hin].
      * simpl in Hin. destruct Hin as [Hin|[Hin|[Hin|[]]]]; discriminate.
      * rewrite Forall_forall in F. exact (F _ Hin j eq_refl).
Qed.

(** C10: when the execution routine rejects with [e] and, of the
    queryExecutionError hooks, those before position [j] return normally
    while the one at [j] throws [y], the call raises [y] instead of the
    classified error; no hook after [j] is invoked, and the notice
    listener has been removed (the listener list is back to what it was)
    before the first of these hooks ran. *)
Theorem queryExecutionError_hook_throw_propagates cfg rawSql vals inh exec st ctx q st1 st2
  ns e pre j y post :
  setup cfg rawSql vals inh st = (Ok (ctx, q), st1) ->
  runBeforeQueryExecution ctx 0 (interceptors cfg) q st1 = (Ok None, st2) ->
  exec ctx (sql q) (normaliseQueryValues (values q) (native (conn st))) q = (ns, Rejected e) ->
  hooks_of (fun i => option_map (fun h => h ctx q (classify e)) (queryExecutionError i)) 0
           (interceptors cfg) = pre ++ (j, Err y) :: post ->
  Forall (fun p => exists v, snd p = Ok v) pre ->
  executeQuery cfg rawSql vals inh exec st
  = (Err y,
     mkSt (conn st) (if is_termination e then Some e else None) (noticeListeners st)
          (S (nextListener st)) (nextQueryId st2)
          (trace st2 ++ [EvNoticeOn (nextListener st);
                         EvExecutionRoutine (sql q)
                           (normaliseQueryValues (values q) (native (conn st))) q;
                         EvLogExecutionError e; EvNoticeOff (nextListener st)]
                     ++ map (fun p => EvQueryExecutionError (fst p) (classify e))
                            (pre ++ [(j, Err y)]))).
Proof.
  intros H1 H2 He Hh Hpre.
  destruct (reached_state _ _ _ _ _ _ _ _ _ H1 H2) as [Hc [Ht2 [_ [Hl [Hn _]]]]].
  rewrite (executeQuery_reaches _ _ _ _ _ _ _ _ _ _ H1 H2).
  rewrite <- Hc in He |- *.
  rewrite (executeAndFinish_rejected _ _ _ _ _ _ _ He).
  unfold bind at 1.
  rewrite (runQueryExecutionError_throws _ _ _ _ _ _ _ _ _ _ Hh Hpre).
  unfold set_trace. cbn [conn terminated noticeListeners nextListener nextQueryId trace].
  rewrite Ht2, Hl, Hn, <- app_assoc. reflexivity.
Qed.

(** ** Further properties of executeQuery *)

(** Line 83: a non-empty inherited query id becomes the context's query id
    and createQueryId is not called; without one, or with the empty string,
    the id is a fresh createQueryId() and exactly one is drawn. *)
Theorem setup_query_id cfg rawSql vals inh st ctx q st1 :
  setup cfg rawSql vals inh st = (Ok (ctx, q), st1) ->
  (forall id, inh = Some id -> id <> "" ->
     ctxQueryId ctx = id /\ nextQueryId st1 = nextQueryId st) /\
  (inh = None \/ inh = Some "" ->
     ctxQueryId ctx = createQueryId (nextQueryId st) /\ nextQueryId st1 = S (nextQueryId st)).
Proof.
  intros H. destruct (setup_context _ _ _ _ _ _ _ _ H) as [s0 [E [_ Hn]]].
  rewrite Hn. unfold resolveQueryId, bind, fresh_query_number, ret in E.
  split.
  - intros id -> Hne. apply String.eqb_neq in Hne. rewrite Hne in E.
    injection E as <- <-. auto.
  - intros [->| ->]; simpl in E; injection E as <- <-; auto.
Qed.


(** Lines 136-239: a call that succeeds after the execution routine resolved
    returns the notices collected while the listener was attached (in place
    of whatever the routine's result held), the routine's fields, and as many
    rows as the routine returned, or no rows if it returned none. *)
Theorem executeQuery_success_result cfg rawSql vals inh exec st ctx q st1 st2 ns raw res st' :
  setup cfg rawSql vals inh st = (Ok (ctx, q), st1) ->
  runBeforeQueryExecution ctx 0 (interceptors cfg) q st1 = (Ok None, st2) ->
  exec ctx (sql q) (normaliseQueryValues (values q) (native (conn st))) q = (ns, Resolved raw) ->
  executeQuery cfg rawSql vals inh exec st = (Ok res, st') ->
  notices res = ns /\ fields res = fields raw /\
  option_map (@length Row) (rows res) = option_map (@length Row) (rows raw).
Proof.
  intros H1 H2 He Hr.
  destruct (reached_state _ _ _ _ _ _ _ _ _ H1 H2) as [Hc _].
  rewrite (executeQuery_reaches _ _ _ _ _ _ _ _ _ _ H1 H2) in Hr.
  rewrite <- Hc in He.
  rewrite (executeAndFinish_resolved _ _ _ _ _ _ _ He) in Hr.
  destruct (finish_resolved_ok _ _ _ _ _ _ _ _ Hr) as [Hn [Hf [Hl _]]]. auto.
Qed.

(** Lines 204-237: on a successful execution, after the listener is removed,
    every afterQueryExecution hook runs once in registration order; then
    each transformRow hook in turn is called once per row (a full pass over
    the rows per hook, none when the result has no rows); then every
    beforeQueryResult hook runs once, and nothing else happens. *)
Theorem executeQuery_success_hook_order cfg rawSql vals inh exec st ctx q st1 st2 ns raw res st' :
  setup cfg rawSql vals inh st = (Ok (ctx, q), st1) ->
  runBeforeQueryExecution ctx 0 (interceptors cfg) q st1 = (Ok None, st2) ->
  exec ctx (sql q) (normaliseQueryValues (values q) (native (conn st))) q = (ns, Resolved raw) ->
  executeQuery cfg rawSql vals inh exec st = (Ok res, st') ->
  exists t,
    trace st' = t ++ EvNoticeOff (nextListener st)
                   :: map (fun p => EvAfterQueryExecution (fst p))
                          (hooks_of afterQueryExecution 0 (interceptors cfg))
                   ++ match rows raw with
                      | Some rs => flat_map (fun p => repeat (EvTransformRow (fst p)) (length rs))
                                            (hooks_of transformRow 0 (interceptors cfg))
                      | None => []
                      end
                   ++ map (fun p => EvBeforeQueryResult (fst p))
                          (hooks_of beforeQueryResult 0 (interceptors cfg)).
Proof.
  intros H1 H2 He Hr.
  destruct (reached_state _ _ _ _ _ _ _ _ _ H1 H2) as [Hc [_ [_ [_ [Hn _]]]]].
  rewrite (executeQuery_reaches _ _ _ _ _ _ _ _ _ _ H1 H2) in Hr.
  rewrite <- Hc in He.
  rewrite (executeAndFinish_resolved _ _ _ _ _ _ _ He) in Hr.
  destruct (finish_resolved_ok _ _ _ _ _ _ _ _ Hr) as [_ [_ [_ ->]]].
  exists (trace st2 ++ [EvNoticeOn (nextListener st2);
                        EvExecutionRoutine (sql q)
                          (normaliseQueryValues (values q) (native (conn st2))) q]).
  unfold set_trace. cbn [trace]. rewrite Hn. rewrite <- !app_assoc. reflexivity.
Qed.

(** Lines 207-211: if an afterQueryExecution hook throws, given the result
    with the collected notices, the call fails with the hook's error although
    the query ran: the hooks after it, every transformRow and every
    beforeQueryResult hook are skipped, the listener is already removed and
    the termination flag stays unset. *)
Theorem afterQueryExecution_hook_throw_propagates cfg rawSql vals inh exec st ctx q st1 st2
  ns raw pre j y post :
  setup cfg rawSql vals inh st = (Ok (ctx, q), st1) ->
  runBeforeQueryExecution ctx 0 (interceptors cfg) q st1 = (Ok None, st2) ->
  exec ctx (sql q) (normaliseQueryValues (values q) (native (conn st))) q = (ns, Resolved raw) ->
  hooks_of (fun i => option_map (fun h => h ctx q (mkQueryResult (rows raw) (fields raw) ns))
                                (afterQueryExecution i)) 0 (interceptors cfg)
    = pre ++ (j, Err y) :: post ->
  Forall (fun p => exists v, snd p = Ok v) pre ->
  executeQuery cfg rawSql vals inh exec st
  = (Err y,
     mkSt (conn st) None (noticeListeners st) (S (nextListener st)) (nextQueryId st2)
          (trace st2 ++ [EvNoticeOn (nextListener st);
                         EvExecutionRoutine (sql q)
                           (normaliseQueryValues (values q) (native (conn st))) q;
                         EvNoticeOff (nextListener st)]
                     ++ map (fun p => EvAfterQueryExecution (fst p)) (pre ++ [(j, Err y)]))).
Proof.
  intros H1 H2 He Hh Hpre.
  destruct (reached_state _ _ _ _ _ _ _ _ _ H1 H2) as [Hc [Ht2 [_ [Hl [Hn _]]]]].
  rewrite (executeQuery_reaches _ _ _ _ _ _ _ _ _ _ H1 H2).
  rewrite <- Hc in He |- *.
  rewrite (executeAndFinish_resolved _ _ _ _ _ _ _ He).
  cbv zeta. unfold bind at 1.
  rewrite (runAfterQueryExecution_throws _ _ _ _ _ _ _ _ _ _ Hh Hpre).
  unfold set_trace. cbn [conn terminated noticeListeners nextListener nextQueryId trace].
  rewrite Ht2, Hl, Hn, <- app_assoc. reflexivity.
Qed.

(** Lines 124-134: if a beforeQueryExecution hook throws before any earlier
    one produced a result, the call fails with the hook's error; the later
    hooks do not run, no notice listener is attached and the execution
    routine is not called. *)
Theorem beforeQueryExecution_hook_throw_propagates cfg rawSql vals inh exec st ctx q st1
  pre j y post :
  setup cfg rawSql vals inh st = (Ok (ctx, q), st1) ->
  hooks_of (fun i => option_map (fun h => h ctx q) (beforeQueryExecution i)) 0
           (interceptors cfg) = pre ++ (j, Err y) :: post ->
  Forall (fun p => snd p = Ok None) pre ->
  noticeListeners st1 = noticeListeners st /\ terminated st1 = None /\
  executeQuery cfg rawSql vals inh exec st
  = (Err y, set_trace st1 (trace st1 ++ map (fun p => EvBeforeQueryExecution (fst p))
                                            (pre ++ [(j, Err y)]))).
Proof.
  intros H1 Hh Hpre.
  destruct (setup_effects _ _ _ _ _ _ _ H1) as [_ [Ht [Hl _]]].
  destruct (setup_ok _ _ _ _ _ _ _ _ H1) as [Ht0 _].
  split; [exact Hl|]. split; [congruence|].
  rewrite (executeQuery_bqe _ _ _ _ _ _ _ _ _ H1).
  unfold bind at 1.
  rewrite (runBeforeQueryExecution_throws _ _ _ _ _ _ _ _ _ Hh Hpre). reflexivity.
Qed.


(** The whole routine without interceptors: on a live connection with SQL
    that is neither blank nor only `$1`, the execution routine is called
    with the raw SQL and the normalised values, and the call returns its
    rows and fields with the collected notices, or fails with the
    classified error. *)
Theorem executeQuery_without_interceptors b rawSql vals inh exec st r st' :
  terminated st = None -> trim rawSql <> "" -> trim rawSql <> "$1" ->
  executeQuery (mkClientConfiguration b []) rawSql vals inh exec st = (r, st') ->
  exists ctx,
    ctxOriginalQuery ctx = mkQuery rawSql vals /\
    match exec ctx rawSql (normaliseQueryValues vals (native (conn st))) (mkQuery rawSql vals) with
    | (ns, Resolved raw) =>
        r = Ok (mkQueryResult (rows raw) (fields raw) ns) /\
        trace st' = trace st ++ [EvNoticeOn (nextListener st);
                                 EvExecutionRoutine rawSql
                                   (normaliseQueryValues vals (native (conn st)))
                                   (mkQuery rawSql vals);
                                 EvNoticeOff (nextListener st)]
    | (_, Rejected e) =>
        r = Err (classify e) /\
        trace st' = trace st ++ [EvNoticeOn (nextListener st);
                                 EvExecutionRoutine rawSql
                                   (normaliseQueryValues vals (native (conn st)))
                                   (mkQuery rawSql vals);
                                 EvLogExecutionError e; EvNoticeOff (nextListener st)]
    end.
Proof.
  intros Ht Hb1 Hb2 Hr.
  destruct (resolveQueryId_spec inh st) as [id [n E]].
  set (ctx := mkQueryContext (connectionId (conn st)) (mkQuery rawSql vals) (poolId (conn st))
                             id (transactionId (conn st))).
  set (s1 := mkSt (conn st) (terminated st) (noticeListeners st) (nextListener st) n (trace st)).
  assert (H1 : setup (mkClientConfiguration b []) rawSql vals inh st
               = (Ok (ctx, mkQuery rawSql vals), s1)).
  { unfold setup, bind at 1, get_terminated. rewrite Ht.
    apply String.eqb_neq in Hb1. apply String.eqb_neq in Hb2. rewrite Hb1, Hb2.
    unfold bind at 1. rewrite E. reflexivity. }
  assert (H2 : runBeforeQueryExecution ctx 0 [] (mkQuery rawSql vals) s1 = (Ok None, s1))
    by reflexivity.
  rewrite (executeQuery_reaches _ _ _ _ _ _ _ _ _ _ H1 H2) in Hr.
  exists ctx. split; [reflexivity|].
  destruct (exec ctx rawSql (normaliseQueryValues vals (native (conn st))) (mkQuery rawSql vals))
    as [ns [raw|e]] eqn:He.
  - rewrite (executeAndFinish_resolved _ _ _ _ s1 _ _ He) in Hr.
    cbv zeta in Hr. simpl in Hr.
    destruct (rows raw); unfold bind, ret in Hr; simpl in Hr; injection Hr as <- <-;
      split; reflexivity.
  - rewrite (executeAndFinish_rejected _ _ _ _ s1 _ _ He) in Hr.
    unfold bind, ret, throw in Hr. simpl in Hr. injection Hr as <- <-.
    split; reflexivity.
Qed.

(** Lines 144-152: the execution routine is called at most once per call;
    nothing retries it. *)
Theorem executeQuery_routine_at_most_once cfg rawSql vals inh exec st r st' :
  executeQuery cfg rawSql vals inh exec st = (r, st') ->
  exists evs, trace st' = trace st ++ evs /\ length (filter is_execution_event evs) <= 1.
Proof.
  intros Hr.
  destruct (setup cfg rawSql vals inh st) as [[[ctx q]|x] st1] eqn:E1;
    destruct (setup_effects _ _ _ _ _ _ _ E1) as [_ [_ [_ [_ [evs1 [Htr1 F1]]]]]].
  2:{ rewrite (executeQuery_setup_err _ _ _ _ _ _ _ _ E1) in Hr. injection Hr as _ <-.
      exists evs1. split; [exact Htr1|].
      rewrite (filter_execution_nil _ _ pre_execution_not_execution F1). simpl. lia. }
  rewrite (executeQuery_bqe _ _ _ _ _ _ _ _ _ E1) in Hr.
  destruct (runBeforeQueryExecution ctx 0 (interceptors cfg) q st1) as [[[r0|]|x] st2] eqn:E2;
    destruct (appends_frame _ _ _ _ _ (runBeforeQueryExecution_appends _ _ _ _) E2)
      as [_ [_ [_ [_ [_ [evs2 [Htr2 F2]]]]]]].
  - rewrite (bind_ok _ _ _ _ _ E2) in Hr.
    unfold bind, emit, ret in Hr. injection Hr as _ <-.
    exists (evs1 ++ evs2 ++ [EvLogShortCircuit]). simpl.
    rewrite Htr2, Htr1, <- !app_assoc. split; [reflexivity|].
    rewrite !filter_app, (filter_execution_nil _ _ pre_execution_not_execution F1).
    rewrite (filter_execution_nil (fun ev => exists j, ev = EvBeforeQueryExecution j) evs2);
      [simpl; lia| |exact F2].
    intros ev [j ->]. reflexivity.
  - assert (Hr' : executeAndFinish cfg ctx q exec st2 = (r, st')).
    { rewrite <- Hr. rewrite (bind_ok _ _ _ _ _ E2). reflexivity. }
    destruct (reached_state _ _ _ _ _ _ _ _ _ E1 E2) as [_ [_ [_ [_ [_ [evs [Htr F]]]]]]].
    destruct (executeAndFinish_shape _ _ _ _ _ _ _ Hr') as [mid [post [_ [_ [Htr' [Hmid Fp]]]]]].
    eexists. rewrite Htr', Htr. split; [rewrite <- app_assoc; reflexivity|].
    rewrite !filter_app, (filter_execution_nil _ _ pre_execution_not_execution F).
    rewrite (filter_execution_nil _ _ post_execution_not_execution Fp).
    destruct Hmid as [->|[e ->]]; simpl; lia.
  - rewrite (bind_err _ _ _ _ _ E2) in Hr. injection Hr as _ <-.
    exists (evs1 ++ evs2). rewrite Htr2, Htr1, <- app_assoc. split; [reflexivity|].
    rewrite filter_app, (filter_execution_nil _ _ pre_execution_not_execution F1).
    rewrite (filter_execution_nil (fun ev => exists j, ev = EvBeforeQueryExecution j) evs2);
      [simpl; lia| |exact F2].
    intros ev [j ->]. reflexivity.
Qed.

End ExecuteQuery.

(** ** Witnesses and counterexamples *)

Lemma executeQuery_terminated_fails_fast_witness :
  executeQuery idValues constQueryId (mkClientConfiguration false [appendComment " -- a"])
               "SELECT 1" [] None resolveRows st_terminated
  = (Err (BackendTerminatedError err_terminated), st_terminated).
Proof.
  apply executeQuery_terminated_fails_fast. reflexivity.
Defined.

Lemma executeQuery_rejects_blank_sql_witness :
  exists msg, executeQuery idValues constQueryId (mkClientConfiguration false [])
                           "  $1 " [] None resolveRows st0 = (Err (InvalidInputError msg), st0).
Proof.
  apply (executeQuery_rejects_blank_sql idValues constQueryId (mkClientConfiguration false [])
           "  $1 " [] None resolveRows st0).
  - right. reflexivity.
  - reflexivity.
Defined.

(** C3 fails as stated: with the termination flag set, a blank query fails
    with BackendTerminatedError, not InvalidInputError. *)
Lemma executeQuery_blank_sql_on_terminated_connection :
  fst (executeQuery idValues constQueryId (mkClientConfiguration false [])
                    "" [] None resolveRows st_terminated)
  = Err (BackendTerminatedError err_terminated) /\
  ~ exists msg, fst (executeQuery idValues constQueryId (mkClientConfiguration false [])
                                  "" [] None resolveRows st_terminated)
                = Err (InvalidInputError msg).
Proof.
  split; [vm_compute; reflexivity|].
  intros [msg H]. vm_compute in H. discriminate.
Defined.


Lemma executeQuery_classifies_execution_error_witness :
  let run := executeQuery idValues constQueryId (mkClientConfiguration false [observeError])
                          "INSERT INTO person (email) VALUES ($1)" [VString "a@b.c"] None
                          (rejectWith err_unique) st0 in
  terminated (snd run) = None /\
  fst run = Err (UniqueIntegrityConstraintViolationError err_unique (Some "person_email_key")).
Proof.
  intros run.
  destruct (executeQuery_classifies_execution_error idValues constQueryId
              (mkClientConfiguration false [observeError])
              "INSERT INTO person (email) VALUES ($1)" [VString "a@b.c"] None
              (rejectWith err_unique) st0 _ _ _ _ _ err_unique (fst run) (snd run)
              eq_refl eq_refl eq_refl (surjective_pairing _)) as [Ht Hr].
  split; [exact Ht|].
  exact (Hr (Forall_cons (0, Ok (Some cachedResult))
                         (ex_intro _ (Some cachedResult) eq_refl) (Forall_nil _))).
Defined.

Lemma termination_error_poisons_connection_witness :
  let run := executeQuery idValues constQueryId (mkClientConfiguration false [])
                          "SELECT 1" [] None (rejectWith err_terminated) st0 in
  terminated (snd run) = Some err_terminated /\
  runCalls idValues constQueryId
           [mkCall (mkClientConfiguration false []) "SELECT 2" [] None resolveRows] (snd run)
  = (Ok [Err (BackendTerminatedError err_terminated)], snd run).
Proof.
  intros run.
  refine (match termination_error_poisons_connection idValues constQueryId
                  (mkClientConfiguration false []) "SELECT 1" [] None
                  (rejectWith err_terminated) st0 _ _ _ _ _ err_terminated (fst run) (snd run)
                  eq_refl eq_refl eq_refl eq_refl (surjective_pairing _) with
          | conj Ht (conj _ (conj _ Hcalls)) => conj Ht (Hcalls _)
          end).
Defined.

(** C1 fails as stated: the table of the claim omits the termination rule,
    which comes first.  A 57P01 error matches none of the claim's rules yet
    is not re-raised unchanged, and a 57014 error whose message is
    `Connection terminated` is not StatementCancelled. *)
Lemma executeQuery_termination_rule_precedes_table :
  fst (executeQuery idValues constQueryId (mkClientConfiguration false [])
                    "SELECT 1" [] None (rejectWith err_terminated) st0)
  = Err (BackendTerminatedError err_terminated) /\
  fst (executeQuery idValues constQueryId (mkClientConfiguration false [])
                    "SELECT 1" [] None (rejectWith err_terminated) st0)
  <> Err (DriverFailure err_terminated) /\
  fst (executeQuery idValues constQueryId (mkClientConfiguration false [])
                    "SELECT 1" [] None
                    (rejectWith (mkDriverError (Some "57014") "Connection terminated" None)) st0)
  <> Err (StatementCancelledError (mkDriverError (Some "57014") "Connection terminated" None)).
Proof.
  split; [vm_compute; reflexivity|].
  split; vm_compute; discriminate.
Defined.

Lemma beforeQueryExecution_short_circuits_witness :
  fst (executeQuery idValues constQueryId
         (mkClientConfiguration false [appendComment " -- a"; answerFromCache false;
                                       answerFromCache true; tagRow "x"])
         "SELECT 1" [] None resolveRows st0)
  = Ok cachedResult.
Proof.
  exact (f_equal fst
           (beforeQueryExecution_short_circuits idValues constQueryId
              (mkClientConfiguration false [appendComment " -- a"; answerFromCache false;
                                            answerFromCache true; tagRow "x"])
              "SELECT 1" [] None resolveRows st0 _ _ _ [(1, Ok None)] 2 cachedResult []
              eq_refl eq_refl (Forall_cons (1, Ok None) eq_refl (Forall_nil _)))).
Defined.

Lemma notice_listener_scoped_witness :
  let run := executeQuery idValues constQueryId (mkClientConfiguration false [observeError])
                          "SELECT 1" [] None (rejectWith err_timeout)
                          (mkSt conn0 None [5] 6 0 []) in
  noticeListeners (snd run) = [5] /\ ~ In 6 (noticeListeners (snd run)).
Proof.
  intros run.
  assert (Hfresh : listeners_fresh (mkSt conn0 None [5] 6 0 [])).
  { unfold listeners_fresh. simpl. repeat constructor. }
  destruct (notice_listener_scoped idValues constQueryId
              (mkClientConfiguration false [observeError]) "SELECT 1" [] None
              (rejectWith err_timeout) (mkSt conn0 None [5] 6 0 []) (fst run) (snd run)
              Hfresh (surjective_pairing _)) as [Hl [Hnin _]].
  split; [exact Hl|exact Hnin].
Defined.

Lemma transformQuery_hooks_compose_witness :
  let run := executeQuery idValues constQueryId
               (mkClientConfiguration false [appendComment " /* a */"; appendComment " /* b */"])
               "SELECT 1" [] None resolveRows st0 in
  exists pre rest,
    trace (snd run) = pre ++ EvNoticeOn 0
                      :: EvExecutionRoutine "SELECT 1 /* a */ /* b */" []
                           (mkQuery "SELECT 1 /* a */ /* b */" [])
                      :: rest.
Proof.
  intros run.
  destruct (transformQuery_hooks_compose idValues constQueryId
              (mkClientConfiguration false [appendComment " /* a */"; appendComment " /* b */"])
              "SELECT 1" [] None resolveRows st0 _ _ _ eq_refl)
    as [q0 [ins0 [ins [_ [_ [_ [_ Hexec]]]]]]].
  destruct (Hexec _ (fst run) (snd run) eq_refl (surjective_pairing _)) as [rest Hrest].
  eexists _, rest. exact Hrest.
Defined.

Lemma queryExecutionError_hooks_cannot_suppress_witness :
  fst (executeQuery idValues constQueryId
         (mkClientConfiguration false [observeError; observeError])
         "SELECT pg_sleep(10)" [] None (rejectWith err_timeout) st0)
  = Err (StatementTimeoutError err_timeout).
Proof.
  change (StatementTimeoutError err_timeout) with (classify err_timeout).
  destruct (queryExecutionError_hooks_cannot_suppress idValues constQueryId
              (mkClientConfiguration false [observeError; observeError])
              "SELECT pg_sleep(10)" [] None (rejectWith err_timeout) st0 _ _ _ _ _ err_timeout
              _ _ eq_refl eq_refl eq_refl (surjective_pairing _)) as [_ Hok].
  destruct Hok as [Hr _].
  - simpl. repeat constructor; eexists; reflexivity.
  - exact Hr.
Defined.

Lemma transformRow_hooks_compose_witness :
  let run := executeQuery idValues constQueryId
               (mkClientConfiguration false [tagRow "a"; tagRow "b"])
               "SELECT id FROM t" [] None resolveRows st0 in
  exists res rs', fst run = Ok res /\ rows res = Some rs' /\ length rs' = 2.
Proof.
  intros run.
  destruct (transformRow_hooks_compose idValues constQueryId
              (mkClientConfiguration false [tagRow "a"; tagRow "b"])
              "SELECT id FROM t" [] None resolveRows st0 _ _ _ _ _ _ (fst run) (snd run)
              eq_refl eq_refl eq_refl (surjective_pairing _)) as [Hrows _].
  set (res := match fst run with Ok r => r | Err _ => cachedResult end).
  assert (Hres : fst run = Ok res) by (vm_compute; reflexivity).
  destruct (Hrows _ res eq_refl Hres) as [rs' [Hr HF]].
  exists res, rs'. split; [exact Hres|]. split; [exact Hr|].
  apply Forall2_length in HF. exact (eq_sym HF).
Defined.

Lemma queryExecutionError_hook_throw_propagates_witness :
  fst (executeQuery idValues constQueryId
         (mkClientConfiguration false [observeError; throwOnError; observeError])
         "INSERT INTO person (email) VALUES ($1)" [VString "a@b.c"] None
         (rejectWith err_unique) st0)
  = Err (InterceptorFailure "hook failed").
Proof.
  exact (f_equal fst
           (queryExecutionError_hook_throw_propagates idValues constQueryId
              (mkClientConfiguration false [observeError; throwOnError; observeError])
              "INSERT INTO person (email) VALUES ($1)" [VString "a@b.c"] None
              (rejectWith err_unique) st0 _ _ _ _ _ err_unique
              [(0, Ok (Some cachedResult))] 1 (InterceptorFailure "hook failed")
              [(2, Ok (Some cachedResult))]
              eq_refl eq_refl eq_refl eq_refl
              (Forall_cons (0, Ok (Some cachedResult))
                 (ex_intro _ (Some cachedResult) eq_refl) (Forall_nil _)))).
Defined.

Lemma setup_query_id_witness :
  let run := setup constQueryId (mkClientConfiguration false [appendComment " -- a"])
                   "SELECT 1" [] (Some "req-42") st0 in
  match fst run with
  | Ok (ctx, _) => ctxQueryId ctx = "req-42"
  | Err _ => False
  end /\ nextQueryId (snd run) = 0.
Proof.
  intros run.
  destruct (setup_query_id constQueryId (mkClientConfiguration false [appendComment " -- a"])
              "SELECT 1" [] (Some "req-42") st0 _ _ _ eq_refl) as [Hsome _].
  destruct (Hsome "req-42" eq_refl ltac:(discriminate)) as [Hid Hn].
  exact (conj Hid Hn).
Defined.


Lemma executeQuery_success_result_witness :
  let run := executeQuery idValues constQueryId (mkClientConfiguration false [tagRow "a"])
                          "SELECT id FROM t" [] None resolveRows st0 in
  exists res, fst run = Ok res /\ notices res = ["NOTICE: hello"] /\
              option_map (@length Row) (rows res) = Some 2.
Proof.
  intros run.
  set (res := match fst run with Ok r => r | Err _ => cachedResult end).
  assert (Hres : fst run = Ok res) by (vm_compute; reflexivity).
  destruct (executeQuery_success_result idValues constQueryId
              (mkClientConfiguration false [tagRow "a"]) "SELECT id FROM t" [] None resolveRows
              st0 _ _ _ _ _ _ res (snd run) eq_refl eq_refl eq_refl
              (eq_trans (surjective_pairing _) (f_equal (fun r => (r, snd run)) Hres)))
    as [Hn [_ Hl]].
  exists res. split; [exact Hres|]. split; [exact Hn|exact Hl].
Defined.

Lemma executeQuery_success_hook_order_witness :
  let run := executeQuery idValues constQueryId
               (mkClientConfiguration false [tagRow "a"; tagRow "b"])
               "SELECT id FROM t" [] None resolveRows st0 in
  exists t, trace (snd run) = t ++ [EvNoticeOff 0; EvTransformRow 0; EvTransformRow 0;
                                    EvTransformRow 1; EvTransformRow 1].
Proof.
  intros run.
  set (res := match fst run with Ok r => r | Err _ => cachedResult end).
  assert (Hres : fst run = Ok res) by (vm_compute; reflexivity).
  destruct (executeQuery_success_hook_order idValues constQueryId
              (mkClientConfiguration false [tagRow "a"; tagRow "b"]) "SELECT id FROM t" [] None
              resolveRows st0 _ _ _ _ _ _ res (snd run) eq_refl eq_refl eq_refl
              (eq_trans (surjective_pairing _) (f_equal (fun r => (r, snd run)) Hres)))
    as [t Ht].
  exists t. exact Ht.
Defined.

Lemma afterQueryExecution_hook_throw_propagates_witness :
  fst (executeQuery idValues constQueryId
         (mkClientConfiguration false [tagRow "a"; throwAfterExecution])
         "SELECT id FROM t" [] None resolveRows st0)
  = Err (InterceptorFailure "after failed").
Proof.
  exact (f_equal fst
           (afterQueryExecution_hook_throw_propagates idValues constQueryId
              (mkClientConfiguration false [tagRow "a"; throwAfterExecution])
              "SELECT id FROM t" [] None resolveRows st0 _ _ _ _ _ _
              [] 1 (InterceptorFailure "after failed") []
              eq_refl eq_refl eq_refl eq_refl (Forall_nil _))).
Defined.

Lemma beforeQueryExecution_hook_throw_propagates_witness :
  fst (executeQuery idValues constQueryId
         (mkClientConfiguration false [answerFromCache false; failBeforeExecution;
                                       answerFromCache true])
         "SELECT 1" [] None resolveRows st0)
  = Err (InterceptorFailure "cache down").
Proof.
  destruct (beforeQueryExecution_hook_throw_propagates idValues constQueryId
              (mkClientConfiguration false [answerFromCache false; failBeforeExecution;
                                            answerFromCache true])
              "SELECT 1" [] None resolveRows st0 _ _ _
              [(0, Ok None)] 1 (InterceptorFailure "cache down") [(2, Ok (Some cachedResult))]
              eq_refl eq_refl (Forall_cons (0, Ok None) eq_refl (Forall_nil _)))
    as [_ [_ Hr]].
  exact (f_equal fst Hr).
Defined.


Lemma executeQuery_without_interceptors_witness :
  let run := executeQuery idValues constQueryId (mkClientConfiguration false [])
                          "SELECT id FROM t" [] None resolveRows st0 in
  exists ctx,
    ctxOriginalQuery ctx = mkQuery "SELECT id FROM t" [] /\
    fst run = Ok (mkQueryResult (Some [[("id", VNumber 1)]; [("id", VNumber 2)]]) (Some ["id"])
                                ["NOTICE: hello"]) /\
    trace (snd run) = [EvNoticeOn 0;
                       EvExecutionRoutine "SELECT id FROM t" [] (mkQuery "SELECT id FROM t" []);
                       EvNoticeOff 0].
Proof.
  intros run.
  destruct (executeQuery_without_interceptors idValues constQueryId false "SELECT id FROM t" []
              None resolveRows st0 (fst run) (snd run) eq_refl
              ltac:(vm_compute; discriminate) ltac:(vm_compute; discriminate)
              (surjective_pairing _)) as [ctx [Ho [Hr Ht]]].
  exists ctx. split; [exact Ho|]. split; [exact Hr|exact Ht].
Defined.

Lemma executeQuery_routine_at_most_once_witness :
  let run := executeQuery idValues constQueryId (mkClientConfiguration false [observeError])
                          "SELECT 1" [] None (rejectWith err_unique) st0 in
  exists evs, trace (snd run) = [] ++ evs /\ length (filter is_execution_event evs) <= 1.
Proof.
  intros run.
  exact (executeQuery_routine_at_most_once idValues constQueryId
           (mkClientConfiguration false [observeError]) "SELECT 1" [] None
           (rejectWith err_unique) st0 (fst run) (snd run) (surjective_pairing _)).
Defined.
